(** * documind-ml: the ingest / answer pipeline of the RAG service

    A shallow embedding of [app/chunker.py], [app/utils.py] and
    [app/rag_engine.py], and the properties of the chunker, of the relevance
    filter and of the error handling of the two operations
    [process_ingest] and [process_answer].

    Conventions.
    - A Python [str] is a list of Unicode code points ([N]); [len] is
      [length], [s[:k]] is [firstn k s].
    - Python integers are [Z].
    - Calls to collaborators that the service does not implement (HTTP
      download, PDF parsing, the embedding model, the vector index, the
      chat-completion API, the file system) are fields of a [world]: each
      either raises an exception or returns a value.
    - An exception is represented by its text [str(e)]; only exceptions
      derived from [Exception] are modelled.
    - [print] of a text built from the request is a call that may raise
      (the stream may be unable to encode it).  The prints of the service's
      own messages and of exception texts are not modelled: [config.py]
      prints such a message at import, so a service that runs can print
      them.
    - The loops that Python does not bound take [fuel].  In [process_ingest]
      the fuel is the number of chunks the memory can hold: a chunk loop
      that outruns it ends in [MemoryError]. *)

From Stdlib Require Import String Ascii.
From Stdlib Require Import List ZArith NArith Lia Bool QArith.
From Stdlib Require Import DecimalString.
Import ListNotations.

Local Open Scope Z_scope.

(* ================================================================= *)
(** ** Python strings and lists *)

Module Py.

(** A character is a Unicode code point. *)
Definition char := N.
Definition str := list char.

(** A string literal of the source (all of them ASCII). *)
Definition lit (s : string) : str := map N_of_ascii (list_ascii_of_string s).

(** [len(x)] as a Python integer. *)
Definition len {A : Type} (l : list A) : Z := Z.of_nat (length l).

(** [c.isspace()] for one code point: the characters [str.split()] and
    [str.strip()] treat as whitespace. *)
Definition isspace (c : char) : bool :=
  ((9 <=? c) && (c <=? 13) || (28 <=? c) && (c <=? 32)
   || (c =? 133) || (c =? 160) || (c =? 5760)
   || (8192 <=? c) && (c <=? 8202)
   || (c =? 8232) || (c =? 8233) || (c =? 8239) || (c =? 8287)
   || (c =? 12288))%N.

(** [text.split()]: the maximal runs of characters that are not whitespace.
    [cur] is the run being read, most recent character first. *)
Fixpoint split_from (cur : str) (s : str) : list str :=
  match s with
  | [] => match cur with [] => [] | _ => [rev cur] end
  | c :: s' =>
      if isspace c
      then match cur with
           | [] => split_from [] s'
           | _ => rev cur :: split_from [] s'
           end
      else split_from (c :: cur) s'
  end.

Definition split (s : str) : list str := split_from [] s.

(** [s.lstrip()], [s.strip()]. *)
Fixpoint lstrip (s : str) : str :=
  match s with
  | [] => []
  | c :: s' => if isspace c then lstrip s' else s
  end.

Definition strip (s : str) : str := rev (lstrip (rev (lstrip s))).

(** [sep.join(parts)]. *)
Fixpoint join (sep : str) (parts : list str) : str :=
  match parts with
  | [] => []
  | [p] => p
  | p :: rest => p ++ sep ++ join sep rest
  end.

(** An index of a slice, brought into [0 .. n]: a negative index counts
    from the end, and an index out of range is clamped. *)
Definition clamp (n : Z) (k : Z) : Z :=
  if k <? 0 then Z.max (k + n) 0 else Z.min k n.

(** [l[lo:hi]]. *)
Definition slice {A : Type} (l : list A) (lo hi : Z) : list A :=
  let lo' := clamp (len l) lo in
  let hi' := clamp (len l) hi in
  firstn (Z.to_nat (hi' - lo')) (skipn (Z.to_nat lo') l).

(** [str(n)] for an integer. *)
Definition str_of_Z (n : Z) : str :=
  lit (NilZero.string_of_int (Z.to_int n)).

End Py.

Import Py.

(* ================================================================= *)
(** ** app/chunker.py *)

Module Chunker.

(** The [while] loop of [chunk_text].  Python does not bound the number of
    iterations, so the loop takes [fuel]: [None] means that the loop was
    still running when the fuel ran out. *)
Fixpoint chunk_loop (fuel : nat) (tokens : list str)
    (chunk_size chunk_overlap : Z) (i : Z) (chunks : list str)
  : option (list str) :=
  match fuel with
  | O => None
  | S fuel' =>
      if i <? len tokens then
        let end_ := i + chunk_size in
        let chunk := slice tokens i end_ in
        chunk_loop fuel' tokens chunk_size chunk_overlap
          (i + (chunk_size - chunk_overlap))
          (chunks ++ [join (lit " ") chunk])
      else Some chunks
  end.

Definition chunk_text (fuel : nat) (text : str)
    (chunk_size chunk_overlap : Z) : option (list str) :=
  match text with
  | [] => Some []
  | _ =>
      let tokens := split text in
      if len tokens =? 0 then Some []
      else chunk_loop fuel tokens chunk_size chunk_overlap 0 []
  end.

End Chunker.

Import Chunker.

(* ================================================================= *)
(** ** Effects: exceptions, the trace of outbound calls, divergence *)

Module Eff.

(** An exception, as the text [str(e)]. *)
Definition exn := str.

(** A value passed as [pages]: the callers pass an integer or a string. *)
Inductive pyvalue :=
| PyInt (n : Z)
| PyStr (s : str).

(** Body of the status update posted to the Node backend. *)
Record notify_payload := {
  np_fileId : str;
  np_status : str;
  np_pages : option pyvalue;
  np_errorMessage : option str
}.

(** Metadata of a vector record.  [process_answer] reads every key with
    [.get], so each key may be absent. *)
Record metadata := {
  md_fileId : option str;
  md_chunkId : option Z;
  md_text : option str;
  md_source : option str
}.

(** One element of [batch]: [(id, vector, meta)]. *)
Record vector_record := {
  vr_id : str;
  vr_values : list Q;
  vr_meta : metadata
}.

(** One element of [results["matches"]]. *)
Record query_match := {
  m_metadata : option metadata;
  m_score : option Q
}.

(** Outbound calls with an effect on a collaborator, in program order. *)
Inductive event :=
| EvNotify (payload : notify_payload)
| EvUpsert (vectors : list vector_record)
| EvRemove (path : str)
| EvChat (system_content user_content : str).

(** The collaborators and the configuration of one run. *)
Record world := {
  CHUNK_SIZE : Z;
  CHUNK_OVERLAP : Z;
  download_file : str -> exn + str;
  extract_pdf_text : str -> exn + str;
  (** [get_embedder().embed_documents(texts)], rows as lists *)
  embed_documents : list str -> exn + list (list Q);
  (** [get_embedder().embed_query(text).tolist()] *)
  embed_query : str -> exn + list Q;
  index_upsert : list vector_record -> exn + unit;
  (** [index.query(...).get("matches", [])] *)
  index_query : list Q -> Z -> exn + list query_match;
  os_remove : str -> exn + unit;
  (** [requests.post(...)] followed by [raise_for_status()]; gives [resp.text] *)
  requests_post : notify_payload -> exn + str;
  (** [client.chat.completions.create(...).choices[0].message.content] *)
  chat_completion : str -> str -> exn + option str;
  (** [round(score, 4)] on floats *)
  round4 : Q -> Q;
  (** [print(text)] on the standard output *)
  stdout_print : str -> exn + unit
}.

Inductive outcome (A : Type) :=
| Ret (a : A)        (* returned [a] *)
| Raise (e : exn).   (* an exception left the computation *)

Arguments Ret {A} a.
Arguments Raise {A} e.

(** A computation reads the trace so far and extends it. *)
Definition M (A : Type) : Type := list event -> outcome A * list event.

Definition ret {A} (a : A) : M A := fun tr => (Ret a, tr).

Definition bind {A B} (m : M A) (k : A -> M B) : M B :=
  fun tr =>
    match m tr with
    | (Ret a, tr') => k a tr'
    | (Raise e, tr') => (Raise e, tr')
    end.

Definition raise {A} (e : exn) : M A := fun tr => (Raise e, tr).

Definition emit (ev : event) : M unit := fun tr => (Ret tt, tr ++ [ev]).

(** The result of a call to a collaborator. *)
Definition call {A} (r : exn + A) : M A :=
  match r with
  | inl e => raise e
  | inr a => ret a
  end.

(** [try: m  except Exception as e: h e]. *)
Definition try_except {A} (m : M A) (h : exn -> M A) : M A :=
  fun tr =>
    match m tr with
    | (Raise e, tr') => h e tr'
    | r => r
    end.

(** [for x in xs: body x]. *)
Fixpoint for_each {A} (xs : list A) (body : A -> M unit) : M unit :=
  match xs with
  | [] => ret tt
  | x :: xs' => bind (body x) (fun _ => for_each xs' body)
  end.

(** [range(start, stop, step)] for a positive [step]. *)
Definition range (start stop step : Z) : list Z :=
  map (fun k => start + Z.of_nat k * step)
      (seq 0 (Z.to_nat ((stop - start + step - 1) / step))).

End Eff.

Import Eff.

Declare Scope eff_scope.
Delimit Scope eff_scope with eff.
Notation "x <- m ;; k" := (bind m (fun x => k))
  (at level 61, m at next level, right associativity) : eff_scope.
Notation "m ;; k" := (bind m (fun _ => k))
  (at level 61, right associativity) : eff_scope.

(* ================================================================= *)
(** ** app/utils.py *)

Module Utils.

Local Open Scope eff_scope.

(** [notify_node_update(file_id, status, pages=None, error_message=None)].
    The URL and the headers are module constants and are left out of the
    event. *)
Definition notify_node_update (w : world) (file_id status : str)
    (pages : option pyvalue) (error_message : option str) : M (bool * str) :=
  let payload :=
    {| np_fileId := file_id;
       np_status := status;
       np_pages := pages;
       np_errorMessage :=
         match error_message with
         | Some (c :: m) => Some (c :: m)
         | _ => None
         end |} in
  try_except
    (emit (EvNotify payload) ;;
     text <- call (requests_post w payload) ;;
     ret (true, text))
    (fun e => ret (false, e)).

End Utils.

Import Utils.

(* ================================================================= *)
(** ** app/rag_engine.py *)

Module RagEngine.

Local Open Scope eff_scope.

Definition nl : str := [10%N].

(** Response of [process_ingest]: [{"ok", "indexed_chunks"}] or
    [{"ok", "reason"}]. *)
Record ingest_result := {
  ok : bool;
  indexed_chunks : option Z;
  reason : option str
}.

(** One entry of ["sources"]. *)
Record source := {
  src_fileId : option str;
  src_chunkId : option Z;
  src_score : Q;
  src_source : str
}.

(** Response of [process_answer]. *)
Record answer_result := {
  answer : str;
  sources : list source;
  chunks_used : option Z;
  error : option str
}.

(** The loop over [enumerate(vectors)] that fills [batch]; [chunks[i]]
    raises [IndexError] out of range. *)
Fixpoint build_batch (fileId originalName : str) (chunks : list str)
    (i : nat) (vectors : list (list Q)) (batch : list vector_record)
  : exn + list vector_record :=
  match vectors with
  | [] => inr batch
  | vec :: rest =>
      match nth_error chunks i with
      | None => inl (lit "list index out of range")
      | Some text =>
          let meta := {| md_fileId := Some fileId;
                         md_chunkId := Some (Z.of_nat i);
                         md_text := Some text;
                         md_source := Some originalName |} in
          build_batch fileId originalName chunks (S i) rest
            (batch ++ [ {| vr_id := fileId ++ lit "_" ++ str_of_Z (Z.of_nat i);
                           vr_values := vec;
                           vr_meta := meta |} ])
      end
  end.

(** [str(MemoryError())]. *)
Definition MemoryError : exn := [].

(** The [try] block of [process_ingest].  The chunk loop keeps every chunk
    it has built; [fuel] is the number of rounds the memory allows, and a
    loop that needs more ends in [MemoryError]. *)
Definition ingest_body (fuel : nat) (w : world)
    (fileId fileUrl originalName : str) : M ingest_result :=
  local_path <- call (download_file w fileUrl) ;;
  text <- call (extract_pdf_text w local_path) ;;
  match strip text with
  | [] =>
      (* the message is the third positional argument, [pages] *)
      notify_node_update w fileId (lit "failed")
        (Some (PyStr (lit "Empty text extracted"))) None ;;
      ret {| ok := false; indexed_chunks := None;
             reason := Some (lit "Empty text") |}
  | _ =>
      match chunk_text fuel text (CHUNK_SIZE w) (CHUNK_OVERLAP w) with
      | None => raise MemoryError
      | Some chunks =>
          vectors <- call (embed_documents w chunks) ;;
          batch <- call (build_batch fileId originalName chunks 0 vectors []) ;;
          let batch_size := 100 in
          for_each (range 0 (len batch) batch_size)
            (fun i =>
               let vectors := slice batch i (i + batch_size) in
               emit (EvUpsert vectors) ;;
               call (index_upsert w vectors)) ;;
          notify_node_update w fileId (lit "indexed")
            (Some (PyInt (len chunks))) None ;;
          emit (EvRemove local_path) ;;
          call (os_remove w local_path) ;;
          ret {| ok := true; indexed_chunks := Some (len chunks);
                 reason := None |}
      end
  end.

(** The [except Exception as e] block of [process_ingest]. *)
Definition ingest_handler (w : world) (fileId : str) (e : exn)
  : M ingest_result :=
  (* [str(e)] is the third positional argument, [pages] *)
  notify_node_update w fileId (lit "failed") (Some (PyStr e)) None ;;
  ret {| ok := false; indexed_chunks := None; reason := Some e |}.

Definition process_ingest (fuel : nat) (w : world)
    (fileId fileUrl originalName : str) : M ingest_result :=
  try_except (ingest_body fuel w fileId fileUrl originalName)
             (ingest_handler w fileId).

(** [score > 0.3].  A score is a double, taken here as the rational it
    denotes; the literal [0.3] denotes the double just below 3/10 and no
    double lies between the two, so the test on doubles agrees with the
    exact comparison against 3/10. *)
Definition relevant (score : Q) : bool := negb (Qle_bool score (3 # 10)).

Definition empty_metadata : metadata :=
  {| md_fileId := None; md_chunkId := None; md_text := None; md_source := None |}.

Definition match_meta (m : query_match) : metadata :=
  match m_metadata m with Some meta => meta | None => empty_metadata end.

Definition match_score (m : query_match) : Q :=
  match m_score m with Some s => s | None => 0%Q end.

Definition match_text (m : query_match) : str :=
  match md_text (match_meta m) with Some t => t | None => [] end.

Definition match_source (w : world) (m : query_match) : source :=
  let meta := match_meta m in
  {| src_fileId := md_fileId meta;
     src_chunkId := md_chunkId meta;
     src_score := round4 w (match_score m);
     src_source := match md_source meta with
                   | Some s => s
                   | None => lit "Unknown"
                   end |}.

(** The loop [for m in matches] of [process_answer]. *)
Fixpoint collect (w : world) (matches : list query_match)
    (contexts : list str) (sources : list source)
  : list str * list source :=
  match matches with
  | [] => (contexts, sources)
  | m :: rest =>
      if relevant (match_score m)
      then collect w rest (contexts ++ [match_text m])
                          (sources ++ [match_source w m])
      else collect w rest contexts sources
  end.

Definition system_content : str :=
  lit "You are a helpful assistant that provides clear, structured answers based on provided documents. Always format your responses for easy reading.".

Definition prompt (context query : str) : str :=
  lit "You are a helpful AI assistant that answers questions based on provided documents." ++ nl ++
  nl ++
  lit "CONTEXT FROM DOCUMENTS:" ++ nl ++
  context ++ nl ++
  nl ++
  lit "USER QUESTION: " ++ query ++ nl ++
  nl ++
  lit "INSTRUCTIONS:" ++ nl ++
  lit "1. Read the context carefully and provide a clear, well-structured answer" ++ nl ++
  lit "2. Use ONLY information from the context provided" ++ nl ++
  lit "3. Format your response with:" ++ nl ++
  lit "   - A brief direct answer first" ++ nl ++
  lit "   - Key points in bullet format if applicable" ++ nl ++
  lit "   - Clear explanations" ++ nl ++
  lit "4. If the context doesn't contain enough information, say so clearly" ++ nl ++
  lit "5. Do NOT make up or hallucinate any information" ++ nl ++
  lit "6. Be concise but comprehensive" ++ nl ++
  nl ++
  lit "Please provide a well-formatted answer:".

Definition format_fallback_answer (context query : str) : str :=
  let summary :=
    if len context >? 500 then firstn 500 context ++ lit "..." else context in
  lit "**Answer to: " ++ query ++ lit "**" ++ nl ++
  nl ++
  lit "Based on the retrieved documents:" ++ nl ++
  nl ++
  summary ++ nl ++
  nl ++
  lit "*Note: This is a direct extract from your documents. For a more refined answer, please check the system logs.*".

Definition no_context_answer : str :=
  lit "I couldn't find any relevant information in the documents to answer your question.".

(** [not s] for a string. *)
Definition is_empty (s : str) : bool :=
  match s with [] => true | _ => false end.

Definition generate_llm_answer (w : world) (context query : str) : M str :=
  try_except
    (if is_empty context || is_empty (strip context) then
       ret no_context_answer
     else
       let user_content := prompt context query in
       emit (EvChat system_content user_content) ;;
       content <- call (chat_completion w system_content user_content) ;;
       match content with
       | None => ret (format_fallback_answer context query)
       | Some answer =>
           if is_empty answer || (len (strip answer) <? 10)
           then ret (format_fallback_answer context query)
           else ret answer
       end)
    (fun e => ret (format_fallback_answer context query)).

Definition no_match_answer : str :=
  lit "I couldn't find any relevant information in your documents to answer this question. Please make sure documents are uploaded and indexed.".

Definition not_relevant_answer : str :=
  lit "The retrieved documents don't seem relevant enough to answer your question confidently.".

Definition context_separator : str := nl ++ nl ++ lit "---" ++ nl ++ nl.

(** The line printed for a query: the sign U+1F50D, the words
    " Processing query: " and the query. *)
Definition query_line (query : str) : str :=
  [128269%N] ++ lit " Processing query: " ++ query.

(** The [try] block of [process_answer].  Its first statement prints the
    query. *)
Definition answer_body (w : world) (query : str) (top_k : Z)
  : M answer_result :=
  call (stdout_print w (query_line query)) ;;
  qvec <- call (embed_query w query) ;;
  matches <- call (index_query w qvec top_k) ;;
  match matches with
  | [] =>
      ret {| answer := no_match_answer; sources := [];
             chunks_used := None; error := None |}
  | _ =>
      let (contexts, sources) := collect w matches [] [] in
      match contexts with
      | [] =>
          ret {| answer := not_relevant_answer; sources := sources;
                 chunks_used := None; error := None |}
      | _ =>
          let combined_context :=
            join context_separator (slice contexts 0 3) in
          final_answer <- generate_llm_answer w combined_context query ;;
          ret {| answer := final_answer; sources := sources;
                 chunks_used := Some (len contexts); error := None |}
      end
  end.

(** The [except Exception as e] block of [process_answer]. *)
Definition answer_handler (e : exn) : M answer_result :=
  ret {| answer := lit "An error occurred while processing your question: " ++ e;
         sources := []; chunks_used := None; error := Some e |}.

Definition process_answer (w : world) (query : str) (top_k : Z)
  : M answer_result :=
  try_except (answer_body w query top_k) answer_handler.

(** Number of status updates sent during a run. *)
Definition notifications (tr : list event) : nat :=
  length (filter (fun ev => match ev with EvNotify _ => true | _ => false end) tr).

End RagEngine.

Import RagEngine.

(* ================================================================= *)
(** ** Vocabulary of the properties *)

Module Props.

(** [ceil(a / b)] for a positive [b]. *)
Definition ceil_div (a b : Z) : Z := (a + b - 1) / b.

(** A word: a non-empty string without whitespace. *)
Definition word (t : str) : Prop :=
  t <> [] /\ Forall (fun c => isspace c = false) t.

(** The chunk taken at token position [start]. *)
Definition chunk_at (tokens : list str) (size start : Z) : str :=
  join (lit " ") (slice tokens start (start + size)).

(** The chunks the loop adds in [m] rounds when it is entered at position
    [i]: one every [size - overlap] tokens. *)
Definition chunks_from (tokens : list str) (size overlap : Z)
    (i : Z) (m : nat) : list str :=
  map (fun k => chunk_at tokens size (i + Z.of_nat k * (size - overlap)))
      (seq 0 m).

(** The number of chunks as the specification's formula gives it:
    [ceil(max(N - O, 0) / (S - O))]. *)
Definition spec_chunk_count (n size overlap : Z) : Z :=
  ceil_div (Z.max (n - overlap) 0) (size - overlap).

(** The specification's reading of the window sizes: every chunk but the
    last one holds exactly [size] tokens. *)
Definition inner_windows_full (text : str) (size overlap : Z) : Prop :=
  forall fuel chunks,
    chunk_text fuel text size overlap = Some chunks ->
    forall k, (k + 1 < length chunks)%nat ->
      len (split (nth k chunks [])) = size.

(** The specification's reading of the chunk count. *)
Definition count_as_specified (text : str) (size overlap : Z) : Prop :=
  forall fuel chunks,
    chunk_text fuel text size overlap = Some chunks ->
    len chunks = spec_chunk_count (len (split text)) size overlap.

(** What the chat-completion call gave, read as the specification words
    it: the call raised, or the text is empty or shorter than 10
    characters. *)
Definition call_failed_or_short (r : exn + option str) : Prop :=
  match r with
  | inl _ => True
  | inr None => True
  | inr (Some text) => len text < 10
  end.

(** The specification's reading of the fallback rule. *)
Definition fallback_as_specified (w : world) (context query : str) : Prop :=
  forall tr,
    fst (generate_llm_answer w context query tr)
      = Ret (format_fallback_answer context query)
    <-> call_failed_or_short
          (chat_completion w system_content (prompt context query)).

(** The matches of a query: what the search returned, and none when the
    print of the query, the embedding or the search raised. *)
Definition retrieved (w : world) (query : str) (top_k : Z)
  : list query_match :=
  match stdout_print w (query_line query) with
  | inl _ => []
  | inr _ =>
      match embed_query w query with
      | inl _ => []
      | inr qvec =>
          match index_query w qvec top_k with
          | inl _ => []
          | inr matches => matches
          end
      end
  end.

(** The statuses of the updates sent during a run, in order. *)
Definition statuses (tr : list event) : list str :=
  flat_map (fun ev => match ev with
                      | EvNotify payload => [np_status payload]
                      | _ => []
                      end) tr.

End Props.

Import Props.

(* ================================================================= *)
(** ** Sample runs *)

Module Samples.

(** A world in which every collaborator answers, but for the three calls
    given as arguments. *)
Definition sample_world (size overlap : Z) (matches : list query_match)
    (chat : exn + option str) (remove : exn + unit) : world :=
  {| CHUNK_SIZE := size;
     CHUNK_OVERLAP := overlap;
     download_file := fun _ => inr (lit "/tmp/tmpab12.pdf");
     extract_pdf_text := fun _ => inr (lit "alpha beta gamma");
     embed_documents := fun texts => inr (map (fun _ => [1%Q; 0%Q]) texts);
     embed_query := fun _ => inr [1%Q; 0%Q];
     index_upsert := fun _ => inr tt;
     index_query := fun _ _ => inr matches;
     os_remove := fun _ => remove;
     requests_post := fun _ => inr (lit "ok");
     chat_completion := fun _ _ => chat;
     round4 := fun q => q;
     stdout_print := fun _ => inr tt |}.

Definition sample_match (chunkId : Z) (text : str) (score : Q) : query_match :=
  {| m_metadata := Some {| md_fileId := Some (lit "f1");
                           md_chunkId := Some chunkId;
                           md_text := Some text;
                           md_source := Some (lit "doc.pdf") |};
     m_score := Some score |}.

Definition four_matches_three_relevant : list query_match :=
  [ sample_match 0 (lit "one") (9 # 10);
    sample_match 1 (lit "two") (2 # 10);
    sample_match 2 (lit "three") (7 # 10);
    sample_match 3 (lit "four") (5 # 10) ].

Definition four_matches_all_relevant : list query_match :=
  [ sample_match 0 (lit "one") (9 # 10);
    sample_match 1 (lit "two") (8 # 10);
    sample_match 2 (lit "three") (7 # 10);
    sample_match 3 (lit "four") (6 # 10) ].

Definition two_matches_none_relevant : list query_match :=
  [ sample_match 0 (lit "one") (3 # 10);
    sample_match 1 (lit "two") (1 # 10) ].

Definition good_answer : exn + option str :=
  inr (Some (lit "The document says so.")).

End Samples.

Import Samples.

(* ================================================================= *)
(** ** app/pdf_utils.py *)

Module PdfUtils.

(** The loop over [reader.pages]: [page.extract_text()] may raise, and a
    page whose text is empty is skipped. *)
Fixpoint read_pages (pages : list (exn + str)) (text_parts : list str)
  : exn + list str :=
  match pages with
  | [] => inr text_parts
  | inl e :: _ => inl e
  | inr page_text :: rest =>
      match page_text with
      | [] => read_pages rest text_parts
      | _ => read_pages rest (text_parts ++ [page_text])
      end
  end.

(** [extract_pdf_text(path)], over what [PdfReader(path)] gives: an
    exception, or the pages. *)
Definition extract_pdf_text (PdfReader : str -> exn + list (exn + str))
    (path : str) : exn + str :=
  match
    match PdfReader path with
    | inl e => inl e
    | inr pages => read_pages pages []
    end
  with
  | inl e => inl (lit "PDF extraction failed: " ++ e)
  | inr text_parts => inr (join [10%N] text_parts)
  end.

End PdfUtils.

(* ================================================================= *)
(** ** app/config.py *)

Module Config.


Definition required_vars : list str :=
  [ lit "PINECONE_API_KEY"; lit "PINECONE_INDEX"; lit "NODE_SERVICE_TOKEN";
    lit "NODE_URL"; lit "GROQ_API_KEY" ].





End Config.

(* ================================================================= *)
(** ** Vocabulary of the traces *)

Module Trace.

(** The arguments of the successive [index.upsert] calls of
    [process_ingest]: [batch[i:i + 100]] for [i] in
    [range(0, len(batch), 100)]. *)
Definition upsert_batches (batch : list vector_record)
  : list (list vector_record) :=
  map (fun i => slice batch i (i + 100)) (range 0 (len batch) 100).

(** The status update [process_ingest] sends on success. *)
Definition indexed_update (fileId : str) (chunks : list str) : event :=
  EvNotify {| np_fileId := fileId; np_status := lit "indexed";
              np_pages := Some (PyInt (len chunks));
              np_errorMessage := None |}.

(** The status update [process_ingest] sends on a failure with text
    [message]. *)
Definition failed_update (fileId message : str) : event :=
  EvNotify {| np_fileId := fileId; np_status := lit "failed";
              np_pages := Some (PyStr message);
              np_errorMessage := None |}.

(** The record [process_ingest] builds for chunk [i]. *)
Definition chunk_record (fileId originalName : str) (i : nat)
    (vec : list Q) (text : str) : vector_record :=
  {| vr_id := fileId ++ lit "_" ++ str_of_Z (Z.of_nat i);
     vr_values := vec;
     vr_meta := {| md_fileId := Some fileId;
                   md_chunkId := Some (Z.of_nat i);
                   md_text := Some text;
                   md_source := Some originalName |} |}.

(** A text without a token. *)
Definition blank (s : str) : Prop := split s = [].

(** A sample PDF reader: two pages, the first one without text. *)
Definition sample_reader (path : str) : exn + list (exn + str) :=
  inr [inr []; inr (lit "alpha beta")].

(** A PDF whose pages hold whitespace only. *)
Definition blank_reader (path : str) : exn + list (exn + str) :=
  inr [inr (lit "  "); inr []; inr [10%N]].

(** A world that reads PDFs with [extract_pdf_text] over a given reader. *)
Definition pdf_world (reader : str -> exn + list (exn + str)) : world :=
  {| Eff.CHUNK_SIZE := 500;
     Eff.CHUNK_OVERLAP := 50;
     download_file := fun _ => inr (lit "/tmp/tmpab12.pdf");
     Eff.extract_pdf_text := PdfUtils.extract_pdf_text reader;
     embed_documents := fun texts => inr (map (fun _ => [1%Q; 0%Q]) texts);
     embed_query := fun _ => inr [1%Q; 0%Q];
     index_upsert := fun _ => inr tt;
     index_query := fun _ _ => inr [];
     os_remove := fun _ => inr tt;
     requests_post := fun _ => inl (lit "connection refused");
     chat_completion := fun _ _ => inr None;
     round4 := fun q => q;
     stdout_print := fun _ => inr tt |}.

(** A standard output in UTF-8: a text with a surrogate code point
    (U+D800 to U+DFFF) cannot be encoded. *)
Definition utf8_stdout (text : str) : exn + unit :=
  if existsb (fun c => (55296 <=? c) && (c <=? 57343))%N text
  then inl (lit "surrogates not allowed")
  else inr tt.

(** The sample world over that output, with four matches above the
    threshold in the index. *)
Definition utf8_world : world :=
  {| Eff.CHUNK_SIZE := 500;
     Eff.CHUNK_OVERLAP := 50;
     download_file := fun _ => inr (lit "/tmp/tmpab12.pdf");
     Eff.extract_pdf_text := fun _ => inr (lit "alpha beta gamma");
     embed_documents := fun texts => inr (map (fun _ => [1%Q; 0%Q]) texts);
     embed_query := fun _ => inr [1%Q; 0%Q];
     index_upsert := fun _ => inr tt;
     index_query := fun _ _ => inr four_matches_all_relevant;
     os_remove := fun _ => inr tt;
     requests_post := fun _ => inr (lit "ok");
     chat_completion := fun _ _ => good_answer;
     round4 := fun q => q;
     stdout_print := utf8_stdout |}.

(** An environment with the five required variables and nothing else. *)
Definition sample_env (var : str) : option str :=
  if existsb (fun r => if list_eq_dec N.eq_dec r var then true else false)
       Config.required_vars
  then Some (lit "value")
  else None.

End Trace.

Import Trace.

(* ================================================================= *)
(** ** Facts about strings, slices and division *)

Section PyFacts.

Lemma split_from_words (s cur : str) :
  Forall (fun c => isspace c = false) cur ->
  Forall word (split_from cur s).
Proof.
  revert cur. induction s as [|c s IH]; intros cur Hcur; simpl.
  - destruct cur as [|c0 cur']; constructor; [|constructor].
    split.
    + intro E. apply (f_equal (@length _)) in E.
      rewrite length_rev in E. discriminate.
    + apply Forall_rev. exact Hcur.
  - destruct (isspace c) eqn:Hc.
    + destruct cur as [|c0 cur'].
      * apply IH. constructor.
      * constructor; [|apply IH; constructor].
        split.
        -- intro E. apply (f_equal (@length _)) in E.
           rewrite length_rev in E. discriminate.
        -- apply Forall_rev. exact Hcur.
    + apply IH. constructor; assumption.
Qed.

Lemma split_words (s : str) : Forall word (split s).
Proof. apply split_from_words. constructor. Qed.

Lemma split_from_run (t s cur : str) :
  Forall (fun c => isspace c = false) t ->
  split_from cur (t ++ s) = split_from (rev t ++ cur) s.
Proof.
  revert cur. induction t as [|c t IH]; intros cur Ht; simpl.
  - reflexivity.
  - inversion Ht as [|c' t' Hc Ht']; subst.
    rewrite Hc, IH by assumption.
    rewrite <- app_assoc. reflexivity.
Qed.

(** Splitting the join of words gives the words back. *)
Lemma split_join (ws : list str) :
  Forall word ws -> split (join (lit " ") ws) = ws.
Proof.
  unfold split.
  induction ws as [|p ws IH]; intros Hws; [reflexivity|].
  inversion Hws as [|p' ws' [Hne Hp] Hrest]; subst.
  assert (Hrev : forall tl, split_from (rev p) (32%N :: tl)
                            = p :: split_from [] tl).
  { intros tl. simpl.
    destruct (rev p) as [|c r] eqn:E.
    - exfalso. apply Hne. rewrite <- (rev_involutive p), E. reflexivity.
    - rewrite <- E, rev_involutive. reflexivity. }
  destruct ws as [|q ws].
  - simpl. rewrite <- (app_nil_r p) at 1.
    rewrite split_from_run by assumption. rewrite app_nil_r.
    simpl. destruct (rev p) as [|c r] eqn:E.
    + exfalso. apply Hne. rewrite <- (rev_involutive p), E. reflexivity.
    + rewrite <- E, rev_involutive. reflexivity.
  - change (join (lit " ") (p :: q :: ws))
      with (p ++ 32%N :: join (lit " ") (q :: ws)).
    rewrite split_from_run by assumption. rewrite app_nil_r.
    rewrite Hrev. f_equal. apply IH. assumption.
Qed.

Lemma join_nonempty (sep : str) (ws : list str) :
  ws <> [] -> Forall (fun t => t <> []) ws -> join sep ws <> [].
Proof.
  destruct ws as [|p ws]; [congruence|].
  intros _ H. inversion H as [|p' ws' Hp _]; subst.
  destruct ws; simpl; [assumption|].
  destruct p; [congruence|discriminate].
Qed.

Lemma strip_blank_split (s : str) : strip s = [] -> split s = [].
Proof.
  unfold strip, split. intros H.
  assert (Hl : lstrip s = []).
  { destruct (lstrip s) as [|c r] eqn:E; [reflexivity|].
    exfalso.
    assert (Hc : isspace c = false).
    { clear H. induction s as [|a s IH]; simpl in E; [discriminate|].
      destruct (isspace a) eqn:Ha; [auto|]. congruence. }
    apply (f_equal (@rev _)) in H. rewrite rev_involutive in H. simpl in H.
    assert (G : forall u, lstrip (u ++ [c]) <> []).
    { induction u as [|a u IHu]; simpl.
      - rewrite Hc. discriminate.
      - destruct (isspace a); [exact IHu|discriminate]. }
    apply (G (rev r)). exact H. }
  clear H. induction s as [|a s IH]; simpl in *; [reflexivity|].
  destruct (isspace a); [auto|discriminate].
Qed.

Lemma ceil_div_bounds (a b : Z) :
  0 < b -> b * (ceil_div a b - 1) < a <= b * ceil_div a b.
Proof.
  intros Hb. unfold ceil_div.
  pose proof (Z.div_mod (a + b - 1) b ltac:(lia)) as E.
  pose proof (Z.mod_pos_bound (a + b - 1) b Hb) as M.
  nia.
Qed.

Lemma ceil_div_nonpos (a b : Z) : 0 < b -> a <= 0 -> ceil_div a b <= 0.
Proof. intros Hb Ha. pose proof (ceil_div_bounds a b Hb). nia. Qed.

Lemma ceil_div_pos (a b : Z) : 0 < b -> 0 < a -> 0 < ceil_div a b.
Proof. intros Hb Ha. pose proof (ceil_div_bounds a b Hb). nia. Qed.

Lemma ceil_div_step (a b : Z) :
  0 < b -> ceil_div (a - b) b = ceil_div a b - 1.
Proof.
  intros Hb. unfold ceil_div.
  replace (a - b + b - 1) with (a + b - 1 + (-1) * b) by lia.
  rewrite Z.div_add by lia. lia.
Qed.

Lemma ceil_div_le_self (a b : Z) : 0 < b -> 0 <= a -> ceil_div a b <= a.
Proof. intros Hb Ha. pose proof (ceil_div_bounds a b Hb). nia. Qed.

Lemma slice_window {A} (l : list A) (i s : Z) :
  0 <= i <= len l -> 0 <= s ->
  slice l i (i + s) = firstn (Z.to_nat s) (skipn (Z.to_nat i) l).
Proof.
  intros Hi Hs. unfold slice, clamp, len in *.
  destruct (i <? 0) eqn:E1; [lia|].
  destruct (i + s <? 0) eqn:E2; [lia|].
  rewrite (Z.min_l i) by lia.
  destruct (Z.min_spec (i + s) (Z.of_nat (length l))) as [[H1 H2]|[H1 H2]];
    rewrite H2.
  - f_equal. lia.
  - rewrite !firstn_all2; try reflexivity; rewrite length_skipn; lia.
Qed.

Lemma slice_length {A} (l : list A) (i s : Z) :
  0 <= i <= len l -> 0 <= s ->
  len (slice l i (i + s)) = Z.min s (len l - i).
Proof.
  intros Hi Hs. rewrite slice_window by assumption.
  unfold len in *. rewrite length_firstn, length_skipn. lia.
Qed.

Lemma slice_sub {A} (P : A -> Prop) (l : list A) (lo hi : Z) :
  Forall P l -> Forall P (slice l lo hi).
Proof.
  intros H. unfold slice.
  assert (Hsub : forall n (u : list A), Forall P u ->
                 Forall P (firstn n u) /\ Forall P (skipn n u)).
  { intros n u Hu. rewrite <- (firstn_skipn n u) in Hu.
    apply Forall_app in Hu. exact Hu. }
  apply Hsub, Hsub, H.
Qed.

End PyFacts.

(* ================================================================= *)
(** ** The chunker *)

Section ChunkerFacts.

Variable tokens : list str.
Variables size overlap : Z.

Let n := len tokens.
Let stride := size - overlap.

(** With a positive stride the loop entered at [i] stops after
    [ceil((n - i) / stride)] rounds. *)
Lemma chunk_loop_run (m fuel : nat) (i : Z) (acc : list str) :
  0 < stride ->
  Z.to_nat (ceil_div (n - i) stride) = m ->
  (m < fuel)%nat ->
  chunk_loop fuel tokens size overlap i acc
  = Some (acc ++ chunks_from tokens size overlap i m).
Proof.
  intros Hd. revert fuel i acc.
  induction m as [|m IH]; intros fuel i acc Hm Hfuel;
    (destruct fuel as [|fuel]; [lia|]); simpl.
  - fold n. destruct (i <? n) eqn:E.
    + apply Z.ltb_lt in E.
      pose proof (ceil_div_pos (n - i) stride Hd ltac:(lia)). lia.
    + unfold chunks_from. simpl. rewrite app_nil_r. reflexivity.
  - fold n. destruct (i <? n) eqn:E.
    + fold stride. rewrite (IH fuel (i + stride)).
      * rewrite <- app_assoc. do 2 f_equal. unfold chunks_from.
        change (seq 0 (S m)) with (0%nat :: seq 1 m). cbn [map app].
        rewrite <- seq_shift, map_map. fold stride. f_equal.
        -- unfold chunk_at. do 3 f_equal; lia.
        -- apply map_ext. intros k. f_equal. lia.
      * replace (n - (i + stride)) with (n - i - stride) by lia.
        rewrite ceil_div_step by assumption. lia.
      * lia.
    + apply Z.ltb_ge in E.
      pose proof (ceil_div_nonpos (n - i) stride Hd ltac:(lia)). lia.
Qed.

(** With a stride that is not positive the loop entered below [n] never
    leaves: no amount of fuel is enough. *)
Lemma chunk_loop_stuck (fuel : nat) (i : Z) (acc : list str) :
  stride <= 0 -> i < n ->
  chunk_loop fuel tokens size overlap i acc = None.
Proof.
  intros Hd. revert i acc.
  induction fuel as [|fuel IH]; intros i acc Hi; simpl; [reflexivity|].
  fold n. destruct (i <? n) eqn:E.
  - apply IH. unfold stride in Hd. lia.
  - apply Z.ltb_ge in E. lia.
Qed.

Lemma chunks_from_length (i : Z) (m : nat) :
  length (chunks_from tokens size overlap i m) = m.
Proof. unfold chunks_from. rewrite length_map, length_seq. reflexivity. Qed.

Lemma chunks_from_nth (i : Z) (m k : nat) :
  (k < m)%nat ->
  nth k (chunks_from tokens size overlap i m) []
  = chunk_at tokens size (i + Z.of_nat k * stride).
Proof.
  intros Hk. unfold chunks_from.
  rewrite (nth_indep _ [] (chunk_at tokens size (i + Z.of_nat 0 * stride)))
    by (rewrite length_map, length_seq; exact Hk).
  rewrite (map_nth (fun k => chunk_at tokens size (i + Z.of_nat k * stride))).
  rewrite seq_nth by exact Hk. reflexivity.
Qed.

End ChunkerFacts.

Section ChunkText.

Variables size overlap : Z.

(** [chunk_text] returns, and what it returns. *)
Lemma chunk_text_run (text : str) (fuel : nat) :
  0 < size - overlap ->
  (Z.to_nat (len (split text)) < fuel)%nat ->
  chunk_text fuel text size overlap
  = Some (chunks_from (split text) size overlap 0
            (Z.to_nat (ceil_div (len (split text)) (size - overlap)))).
Proof.
  intros Hd Hfuel. unfold chunk_text.
  assert (H0 : forall tokens : list str, len tokens = 0 ->
               chunks_from tokens size overlap 0
                 (Z.to_nat (ceil_div (len tokens) (size - overlap))) = []).
  { intros tokens E. rewrite E. unfold ceil_div.
    rewrite Z.div_small by lia. reflexivity. }
  destruct text as [|c r].
  - rewrite H0; reflexivity.
  - set (tokens := split (c :: r)) in *.
    destruct (len tokens =? 0) eqn:En.
    + apply Z.eqb_eq in En. rewrite H0 by assumption. reflexivity.
    + apply Z.eqb_neq in En.
      assert (0 <= len tokens) by (unfold len; lia).
      apply (chunk_loop_run tokens size overlap _ fuel 0 []); try assumption.
      * rewrite Z.sub_0_r. reflexivity.
      * pose proof (ceil_div_le_self (len tokens) _ Hd ltac:(lia)). lia.
Qed.

Lemma chunk_at_tokens (text : str) (start : Z) :
  split (chunk_at (split text) size start)
  = slice (split text) start (start + size).
Proof.
  unfold chunk_at. apply split_join.
  apply slice_sub. apply split_words.
Qed.

End ChunkText.

Section ChunkerClaims.

Lemma chunk_loop_more_fuel (tokens : list str) (size overlap : Z)
    (fuel extra : nat) (i : Z) (acc r : list str) :
  chunk_loop fuel tokens size overlap i acc = Some r ->
  chunk_loop (fuel + extra) tokens size overlap i acc = Some r.
Proof.
  revert i acc. induction fuel as [|fuel IH]; intros i acc; simpl.
  - discriminate.
  - destruct (i <? len tokens); [apply IH|trivial].
Qed.

Lemma chunk_text_more_fuel (text : str) (size overlap : Z)
    (fuel extra : nat) (r : list str) :
  chunk_text fuel text size overlap = Some r ->
  chunk_text (fuel + extra) text size overlap = Some r.
Proof.
  unfold chunk_text. destruct text; [trivial|].
  destruct (len _ =? 0); [trivial|]. apply chunk_loop_more_fuel.
Qed.

(** Any two runs that return give the same chunks. *)
Lemma chunk_text_deterministic (text : str) (size overlap : Z)
    (f1 f2 : nat) (r1 r2 : list str) :
  chunk_text f1 text size overlap = Some r1 ->
  chunk_text f2 text size overlap = Some r2 ->
  r1 = r2.
Proof.
  intros H1 H2.
  apply (chunk_text_more_fuel _ _ _ _ f2) in H1.
  apply (chunk_text_more_fuel _ _ _ _ f1) in H2.
  rewrite Nat.add_comm in H2. congruence.
Qed.

(** Every start position of a produced chunk lies inside the tokens. *)
Lemma start_in_range (n stride : Z) (k : nat) :
  0 < stride ->
  (k < Z.to_nat (ceil_div n stride))%nat ->
  0 <= Z.of_nat k * stride < n.
Proof.
  intros Hd Hk. pose proof (ceil_div_bounds n stride Hd) as [Hlo _].
  nia.
Qed.

Lemma slice_same_stop {A} (l : list A) (lo hi1 hi2 : Z) :
  len l <= hi1 -> len l <= hi2 -> slice l lo hi1 = slice l lo hi2.
Proof.
  intros H1 H2. unfold slice, clamp.
  assert (0 <= len l) by (unfold len; lia).
  destruct (hi1 <? 0) eqn:E1; [apply Z.ltb_lt in E1; lia|].
  destruct (hi2 <? 0) eqn:E2; [apply Z.ltb_lt in E2; lia|].
  rewrite (Z.min_r hi1), (Z.min_r hi2) by lia. reflexivity.
Qed.

(** C1 (as amended).  For a text with [N > 0] tokens and [0 <= O < S],
    [chunk_text] returns; chunk [k] is the join of [tokens[k(S-O) : k(S-O)+S]],
    so the first window starts at token 0 and each next one [S-O] tokens
    later; every start is below [N] and the start after the last one is not;
    a window holds [min(S, N - start)] tokens, that is exactly [S] when
    [start + S <= N] and the remaining tokens otherwise.  For [N = 1200],
    [S = 500], [O = 50] the chunks are the joins of [tokens[0:500]],
    [tokens[450:950]] and [tokens[900:1200]]. *)
Theorem chunk_text_windows (text : str) (size overlap : Z) :
  0 < len (split text) ->
  0 <= overlap < size ->
  exists chunks,
    (forall fuel, (Z.to_nat (len (split text)) < fuel)%nat ->
       chunk_text fuel text size overlap = Some chunks) /\
    (forall k, (k < length chunks)%nat ->
       let start := Z.of_nat k * (size - overlap) in
       start < len (split text) /\
       nth k chunks [] = join (lit " ") (slice (split text) start (start + size)) /\
       split (nth k chunks []) = slice (split text) start (start + size) /\
       len (split (nth k chunks [])) = Z.min size (len (split text) - start)) /\
    len (split text) <= len chunks * (size - overlap) /\
    (len (split text) = 1200 -> size = 500 -> overlap = 50 ->
       chunks = [ join (lit " ") (slice (split text) 0 500);
                  join (lit " ") (slice (split text) 450 950);
                  join (lit " ") (slice (split text) 900 1200) ]).
Proof.
  intros Hn Hso.
  set (tokens := split text) in *. set (n := len tokens) in *.
  set (stride := size - overlap).
  assert (Hd : 0 < stride) by (unfold stride; lia).
  set (m := Z.to_nat (ceil_div n stride)).
  exists (chunks_from tokens size overlap 0 m).
  split; [|split; [|split]].
  - intros fuel Hfuel. apply chunk_text_run; assumption.
  - intros k Hk start. rewrite chunks_from_length in Hk.
    rewrite chunks_from_nth by exact Hk. fold stride. rewrite Z.add_0_l.
    pose proof (start_in_range n stride k Hd Hk) as Hstart.
    fold start in Hstart. fold start.
    split; [lia|]. split; [reflexivity|].
    unfold tokens. rewrite chunk_at_tokens. split; [reflexivity|].
    fold tokens. apply slice_length; fold n; lia.
  - replace (len (chunks_from tokens size overlap 0 m)) with (Z.of_nat m)
      by (unfold len; rewrite chunks_from_length; reflexivity).
    unfold m. fold stride.
    pose proof (ceil_div_bounds n stride Hd).
    pose proof (ceil_div_pos n stride Hd Hn). lia.
  - intros En Es Eo. unfold m, stride. rewrite En, Es, Eo.
    unfold chunks_from, chunk_at.
    change (seq 0 (Z.to_nat (ceil_div 1200 (500 - 50))))
      with [0%nat; 1%nat; 2%nat].
    cbn [map].
    change (0 + Z.of_nat 0 * (500 - 50)) with 0.
    change (0 + Z.of_nat 1 * (500 - 50)) with 450.
    change (0 + Z.of_nat 2 * (500 - 50)) with 900.
    change (0 + 500) with 500. change (450 + 500) with 950.
    do 2 f_equal. f_equal. f_equal.
    apply slice_same_stop; fold n; lia.
Qed.

(** C2 (as amended).  For a text with [N] tokens and [0 <= O < S] the
    number of chunks is [ceil(N / (S - O))]. *)
Theorem chunk_text_count (text : str) (size overlap : Z) :
  0 <= overlap < size ->
  exists chunks,
    (forall fuel, (Z.to_nat (len (split text)) < fuel)%nat ->
       chunk_text fuel text size overlap = Some chunks) /\
    len chunks = ceil_div (len (split text)) (size - overlap).
Proof.
  intros Hso.
  assert (Hd : 0 < size - overlap) by lia.
  eexists. split.
  - intros fuel Hfuel. apply chunk_text_run; assumption.
  - unfold len at 1. rewrite chunks_from_length.
    assert (0 <= len (split text)) by (unfold len; lia).
    destruct (Z.eq_dec (len (split text)) 0) as [E|E].
    + rewrite E. unfold ceil_div. rewrite Z.div_small by lia. reflexivity.
    + pose proof (ceil_div_pos (len (split text)) _ Hd ltac:(lia)). lia.
Qed.

(** C9.  For [size >= 1] and [0 <= overlap < size], [chunk_text] returns
    and every chunk it returns is a non-empty string holding at least one
    token. *)
Theorem chunk_text_chunks_nonempty (text : str) (size overlap : Z) :
  1 <= size ->
  0 <= overlap < size ->
  (exists chunks, forall fuel, (Z.to_nat (len (split text)) < fuel)%nat ->
      chunk_text fuel text size overlap = Some chunks) /\
  (forall fuel chunks,
      chunk_text fuel text size overlap = Some chunks ->
      Forall (fun c => c <> [] /\ split c <> []) chunks).
Proof.
  intros Hs Hso.
  assert (Hd : 0 < size - overlap) by lia.
  split.
  - eexists. intros fuel Hfuel. apply chunk_text_run; assumption.
  - intros fuel chunks Hrun.
    pose proof (chunk_text_run size overlap text _ Hd
                  (Nat.lt_succ_diag_r _)) as Hfull.
    rewrite (chunk_text_deterministic _ _ _ _ _ _ _ Hrun Hfull).
    unfold chunks_from. apply Forall_forall. intros c Hc.
    apply in_map_iff in Hc. destruct Hc as (k & <- & Hk).
    apply in_seq in Hk. rewrite Z.add_0_l.
    pose proof (start_in_range (len (split text)) _ k Hd ltac:(lia)) as Hst.
    set (start := Z.of_nat k * (size - overlap)) in *.
    assert (Hlen : len (slice (split text) start (start + size))
                   = Z.min size (len (split text) - start))
      by (apply slice_length; lia).
    assert (Hne : slice (split text) start (start + size) <> []).
    { intro E. rewrite E in Hlen. unfold len in Hlen at 1. simpl in Hlen. lia. }
    split.
    + unfold chunk_at. apply join_nonempty; [exact Hne|].
      apply slice_sub.
      eapply Forall_impl; [|apply split_words]. intros t [Ht _]. exact Ht.
    + rewrite chunk_at_tokens. exact Hne.
Qed.

(** C3.  With [chunk_overlap >= chunk_size] nothing is raised: on a text
    with a token the loop never ends, whatever the fuel, and on a text of
    whitespace only the empty list is returned. *)
Theorem chunk_text_overlap_unguarded :
  (forall fuel, chunk_text fuel (lit "a") 1 1 = None) /\
  (forall fuel, chunk_text fuel (lit " ") 1 1 = Some []).
Proof.
  split; intros fuel.
  - unfold chunk_text. simpl. apply chunk_loop_stuck; reflexivity || lia.
  - reflexivity.
Qed.

End ChunkerClaims.

Section ChunkerSamples.

(** C1, as the specification states it, fails: with 7 tokens, size 5 and
    overlap 3 there are four chunks and the third one holds 3 tokens,
    not 5. *)
Lemma inner_window_short :
  len (split (lit "a b c d e f g")) = 7 /\ 0 <= 3 < 5 /\
  chunk_text 5 (lit "a b c d e f g") 5 3
  = Some [lit "a b c d e"; lit "c d e f g"; lit "e f g"; lit "g"] /\
  ~ inner_windows_full (lit "a b c d e f g") 5 3.
Proof.
  split; [reflexivity|]. split; [lia|]. split; [reflexivity|].
  intros H.
  specialize (H 5%nat _ eq_refl 2%nat).
  simpl in H. specialize (H ltac:(lia)). discriminate H.
Qed.

(** The windows of seven tokens with size 3 and overlap 1. *)
Lemma chunk_text_windows_witness :
  exists chunks,
    chunk_text 8 (lit "a b c d e f g") 3 1 = Some chunks /\
    split (nth 2 chunks []) = [lit "e"; lit "f"; lit "g"].
Proof.
  destruct (chunk_text_windows (lit "a b c d e f g") 3 1)
    as (chunks & Hrun & Hwin & _).
  - reflexivity.
  - lia.
  - exists chunks. split.
    + apply Hrun. simpl. lia.
    + pose proof (Hrun 8%nat ltac:(simpl; lia)) as E.
      vm_compute in E. injection E as <-. reflexivity.
Defined.

(** C2, as the specification states it, fails: with 7 tokens, size 5 and
    overlap 3 there are 4 chunks and the formula gives 2. *)
Lemma chunk_count_off_formula :
  0 <= 3 < 5 /\
  chunk_text 5 (lit "a b c d e f g") 5 3
  = Some [lit "a b c d e"; lit "c d e f g"; lit "e f g"; lit "g"] /\
  spec_chunk_count (len (split (lit "a b c d e f g"))) 5 3 = 2 /\
  ~ count_as_specified (lit "a b c d e f g") 5 3.
Proof.
  split; [lia|]. split; [reflexivity|]. split; [reflexivity|].
  intros H. specialize (H 5%nat _ eq_refl). discriminate H.
Qed.

(** Four tokens with size 5 and overlap 2 give two chunks. *)
Lemma chunk_text_count_witness :
  exists chunks,
    chunk_text 5 (lit "a b c d") 5 2 = Some chunks /\ len chunks = 2.
Proof.
  destruct (chunk_text_count (lit "a b c d") 5 2) as (chunks & Hrun & Hlen).
  - lia.
  - exists chunks. split.
    + apply Hrun. simpl. lia.
    + exact Hlen.
Defined.

(** The two chunks of four tokens with size 5 and overlap 2. *)
Lemma chunk_text_chunks_nonempty_witness :
  Forall (fun c => c <> [] /\ split c <> []) [lit "a b c d"; lit "d"].
Proof.
  destruct (chunk_text_chunks_nonempty (lit "a b c d") 5 2) as [_ H].
  - lia.
  - lia.
  - apply (H 3%nat). reflexivity.
Defined.

End ChunkerSamples.

(* ================================================================= *)
(** ** The answer operation *)

Section AnswerFacts.

Variable w : world.

Ltac run := unfold try_except, bind, call, emit, ret, raise.

Lemma relevant_true (s : Q) : relevant s = true <-> (3 # 10 < s)%Q.
Proof.
  unfold relevant. rewrite negb_true_iff, <- not_true_iff_false, Qle_bool_iff.
  split; [apply Qnot_le_lt|apply Qlt_not_le].
Qed.

Lemma relevant_false (s : Q) : relevant s = false <-> (s <= 3 # 10)%Q.
Proof.
  unfold relevant. rewrite negb_false_iff. apply Qle_bool_iff.
Qed.

(** The loop keeps the matches above the threshold, in order. *)
Lemma collect_filter (matches : list query_match)
    (contexts : list str) (srcs : list source) :
  let kept := filter (fun m => relevant (match_score m)) matches in
  collect w matches contexts srcs
  = (contexts ++ map match_text kept, srcs ++ map (match_source w) kept).
Proof.
  revert contexts srcs.
  induction matches as [|m rest IH]; intros contexts srcs; simpl.
  - rewrite !app_nil_r. reflexivity.
  - destruct (relevant (match_score m)); simpl.
    + rewrite IH, <- !app_assoc. reflexivity.
    + apply IH.
Qed.

Lemma slice_prefix {A} (l : list A) (k : Z) :
  0 <= k -> slice l 0 k = firstn (Z.to_nat k) l.
Proof.
  intros Hk. assert (0 <= len l) by (unfold len; lia).
  apply (slice_window l 0 k); lia.
Qed.

Lemma strip_of_empty (s : str) : is_empty s = true -> is_empty (strip s) = true.
Proof. destruct s; [reflexivity|discriminate]. Qed.

(** A blank context is answered without a call. *)
Lemma generate_llm_answer_blank (context query : str) (tr : list event) :
  is_empty (strip context) = true ->
  generate_llm_answer w context query tr = (Ret no_context_answer, tr).
Proof.
  intros H. unfold generate_llm_answer. run.
  rewrite H, orb_true_r. reflexivity.
Qed.

(** Otherwise the chat-completion call is made once, and its result decides
    between the answer and the fallback. *)
Lemma generate_llm_answer_call (context query : str) (tr : list event) :
  is_empty (strip context) = false ->
  generate_llm_answer w context query tr
  = (Ret match chat_completion w system_content (prompt context query) with
         | inl _ | inr None => format_fallback_answer context query
         | inr (Some text) =>
             if len (strip text) <? 10
             then format_fallback_answer context query
             else text
         end,
     tr ++ [EvChat system_content (prompt context query)]).
Proof.
  intros H. unfold generate_llm_answer. run.
  assert (Hc : is_empty context = false).
  { destruct (is_empty context) eqn:E; [|reflexivity].
    apply strip_of_empty in E. congruence. }
  rewrite H, Hc. simpl.
  destruct (chat_completion w system_content (prompt context query))
    as [e|[text|]]; try reflexivity.
  destruct (is_empty text) eqn:Et.
  - destruct text; [reflexivity|discriminate].
  - simpl. destruct (len (strip text) <? 10); reflexivity.
Qed.

(** [generate_llm_answer] always returns, after at most one call. *)
Lemma generate_llm_answer_returns (context query : str) (tr : list event) :
  exists a tr_llm,
    generate_llm_answer w context query tr = (Ret a, tr ++ tr_llm) /\
    (tr_llm = [] \/ tr_llm = [EvChat system_content (prompt context query)]).
Proof.
  destruct (is_empty (strip context)) eqn:E.
  - exists no_context_answer, []. rewrite app_nil_r.
    split; [apply generate_llm_answer_blank; exact E|left; reflexivity].
  - eexists _, _.
    split; [apply generate_llm_answer_call; exact E|right; reflexivity].
Qed.

(** The [try] block of [process_answer] once the search has returned. *)
Lemma answer_body_found (query : str) (top_k : Z) (qvec : list Q)
    (matches : list query_match) (tr : list event) :
  stdout_print w (query_line query) = inr tt ->
  embed_query w query = inr qvec ->
  index_query w qvec top_k = inr matches ->
  let kept := filter (fun m => relevant (match_score m)) matches in
  answer_body w query top_k tr =
  match matches, kept with
  | [], _ =>
      (Ret {| answer := no_match_answer; sources := [];
              chunks_used := None; error := None |}, tr)
  | _, [] =>
      (Ret {| answer := not_relevant_answer; sources := [];
              chunks_used := None; error := None |}, tr)
  | _, _ =>
      bind (generate_llm_answer w
              (join context_separator (firstn 3 (map match_text kept))) query)
           (fun final_answer =>
              ret {| answer := final_answer;
                     sources := map (match_source w) kept;
                     chunks_used := Some (len kept); error := None |}) tr
  end.
Proof.
  intros Hp He Hq kept. unfold answer_body.
  unfold bind at 1. unfold call at 1. rewrite Hp. unfold ret at 1.
  unfold bind at 1. unfold call at 1. rewrite He. unfold ret at 1.
  unfold bind at 1. unfold call at 1. rewrite Hq. unfold ret at 1.
  destruct matches as [|m rest]; [reflexivity|].
  rewrite collect_filter. fold kept. rewrite !app_nil_l.
  rewrite slice_prefix by lia.
  change (Z.to_nat 3) with 3%nat.
  replace (len (map match_text kept)) with (len kept)
    by (unfold len; rewrite length_map; reflexivity).
  destruct kept as [|k ks]; reflexivity.
Qed.

(** A query that cannot be printed ends the [try] block at once. *)
Lemma answer_body_print_raises (query : str) (top_k : Z) (e : exn)
    (tr : list event) :
  stdout_print w (query_line query) = inl e ->
  answer_body w query top_k tr = (Raise e, tr).
Proof. intros H. unfold answer_body. run. rewrite H. reflexivity. Qed.

Lemma answer_body_embed_raises (query : str) (top_k : Z) (e : exn)
    (tr : list event) :
  stdout_print w (query_line query) = inr tt ->
  embed_query w query = inl e ->
  answer_body w query top_k tr = (Raise e, tr).
Proof.
  intros H0 H. unfold answer_body. run. rewrite H0, H. reflexivity.
Qed.

Lemma answer_body_query_raises (query : str) (top_k : Z) (qvec : list Q)
    (e : exn) (tr : list event) :
  stdout_print w (query_line query) = inr tt ->
  embed_query w query = inr qvec ->
  index_query w qvec top_k = inl e ->
  answer_body w query top_k tr = (Raise e, tr).
Proof.
  intros H0 H1 H2. unfold answer_body. run. rewrite H0, H1, H2. reflexivity.
Qed.

End AnswerFacts.

Section AnswerClaims.

(** C4.  For every query, [process_answer] returns a payload whose sources
    are the matches that pass the filter, built in order; a match with score
    at most 0.3 is not among them; the only call to the model, if any,
    carries the texts of the first three of them.  (When the print of the
    query, the embedding or the search raises there is no match, and the
    error payload has no source.)  When the search runs and returns no
    match, the payload is the "no relevant information" answer with no
    source, no error field, and no call is made. *)
Theorem process_answer_relevance_filter
    (w : world) (query : str) (top_k : Z) (tr : list event) :
  let matches := retrieved w query top_k in
  let kept := filter (fun m => relevant (match_score m)) matches in
  exists r tr_llm,
    process_answer w query top_k tr = (Ret r, tr ++ tr_llm) /\
    (forall m, In m matches -> (match_score m <= 3 # 10)%Q -> ~ In m kept) /\
    sources r = map (match_source w) kept /\
    (tr_llm = [] \/
     tr_llm = [EvChat system_content
                 (prompt (join context_separator
                            (map match_text (firstn 3 kept))) query)]) /\
    (forall qvec,
        stdout_print w (query_line query) = inr tt ->
        embed_query w query = inr qvec ->
        index_query w qvec top_k = inr [] ->
        r = {| answer := no_match_answer; sources := [];
               chunks_used := None; error := None |} /\ tr_llm = []).
Proof.
  intros matches kept.
  assert (Hlow : forall m, In m matches -> (match_score m <= 3 # 10)%Q ->
                           ~ In m kept).
  { intros m _ Hm Hin. apply filter_In in Hin. destruct Hin as [_ Hrel].
    apply relevant_false in Hm. congruence. }
  unfold process_answer, try_except.
  subst kept matches. unfold retrieved in *.
  destruct (stdout_print w (query_line query)) as [e|[]] eqn:Hp.
  { rewrite (answer_body_print_raises w query top_k e tr Hp).
    eexists _, []. rewrite app_nil_r. unfold answer_handler, ret.
    split; [reflexivity|]. split; [exact Hlow|]. split; [reflexivity|].
    split; [left; reflexivity|]. discriminate. }
  destruct (embed_query w query) as [e|qvec] eqn:He.
  - rewrite (answer_body_embed_raises w query top_k e tr Hp He).
    eexists _, []. rewrite app_nil_r. unfold answer_handler, ret.
    split; [reflexivity|]. split; [exact Hlow|]. split; [reflexivity|].
    split; [left; reflexivity|]. discriminate.
  - destruct (index_query w qvec top_k) as [e|matches] eqn:Hq.
    + rewrite (answer_body_query_raises w query top_k qvec e tr Hp He Hq).
      eexists _, []. rewrite app_nil_r. unfold answer_handler, ret.
      split; [reflexivity|]. split; [exact Hlow|]. split; [reflexivity|].
      split; [left; reflexivity|].
      intros q _ Eq; injection Eq as <-; congruence.
    + rewrite (answer_body_found w query top_k qvec matches tr Hp He Hq).
      destruct matches as [|m rest].
      * eexists _, []. rewrite app_nil_r.
        split; [reflexivity|]. split; [exact Hlow|]. split; [reflexivity|].
        split; [left; reflexivity|]. intros; split; reflexivity.
      * set (kept := filter _ (m :: rest)) in *.
        destruct kept as [|k ks] eqn:Ek.
        -- eexists _, []. rewrite app_nil_r.
           split; [reflexivity|]. split; [exact Hlow|]. split; [reflexivity|].
           split; [left; reflexivity|].
           intros q _ Eq; injection Eq as <-; congruence.
        -- destruct (generate_llm_answer_returns w
                       (join context_separator
                          (firstn 3 (map match_text (k :: ks)))) query tr)
             as (a & tr_llm & Hrun & Htr).
           unfold bind. rewrite Hrun. unfold ret.
           rewrite firstn_map in Htr.
           eexists _, tr_llm.
           split; [reflexivity|]. split; [exact Hlow|]. split; [reflexivity|].
           split; [exact Htr|].
           intros q _ Eq; injection Eq as <-; congruence.
Qed.

(** X19.  The normal path: when the query is printed, the embedding and the
    search succeed and some match passes the filter, the sources are all
    the matches that pass, [chunks_used] is their number, and the model is
    given the first three of their texts. *)
Lemma process_answer_generated
    (w : world) (query : str) (top_k : Z) (qvec : list Q)
    (matches : list query_match) (tr : list event) :
  stdout_print w (query_line query) = inr tt ->
  embed_query w query = inr qvec ->
  index_query w qvec top_k = inr matches ->
  let kept := filter (fun m => relevant (match_score m)) matches in
  kept <> [] ->
  exists a tr_llm,
    process_answer w query top_k tr
    = (Ret {| answer := a; sources := map (match_source w) kept;
              chunks_used := Some (len kept); error := None |},
       tr ++ tr_llm) /\
    (tr_llm = [] \/
     tr_llm = [EvChat system_content
                 (prompt (join context_separator
                            (map match_text (firstn 3 kept))) query)]).
Proof.
  intros Hp He Hq kept Hk.
  unfold process_answer, try_except.
  rewrite (answer_body_found w query top_k qvec matches tr Hp He Hq).
  fold kept.
  destruct matches as [|m rest]; [exfalso; apply Hk; reflexivity|].
  destruct kept as [|k ks]; [congruence|].
  destruct (generate_llm_answer_returns w
              (join context_separator (firstn 3 (map match_text (k :: ks))))
              query tr) as (a & tr_llm & Hrun & Htr).
  unfold bind. rewrite Hrun. unfold ret.
  rewrite firstn_map in Htr.
  exists a, tr_llm. split; [reflexivity|exact Htr].
Qed.

(** C10.  When the search returns matches and none of them has a score
    above 0.3, [process_answer] returns a payload whose sources are the
    empty list and makes no call; the payload is the "not relevant enough"
    answer (it is the error payload, also without a source, only when the
    query cannot be printed). *)
Theorem process_answer_below_threshold
    (w : world) (query : str) (top_k : Z) (qvec : list Q)
    (matches : list query_match) (tr : list event) :
  embed_query w query = inr qvec ->
  index_query w qvec top_k = inr matches ->
  matches <> [] ->
  Forall (fun m => ~ (3 # 10 < match_score m)%Q) matches ->
  exists r,
    process_answer w query top_k tr = (Ret r, tr) /\
    sources r = [] /\
    (stdout_print w (query_line query) = inr tt ->
     r = {| answer := not_relevant_answer; sources := [];
            chunks_used := None; error := None |}).
Proof.
  intros He Hq Hne Hlow.
  unfold process_answer, try_except.
  destruct (stdout_print w (query_line query)) as [e|[]] eqn:Hp.
  { rewrite (answer_body_print_raises w query top_k e tr Hp).
    eexists. split; [reflexivity|]. split; [reflexivity|discriminate]. }
  rewrite (answer_body_found w query top_k qvec matches tr Hp He Hq).
  assert (Hk : filter (fun m => relevant (match_score m)) matches = []).
  { clear He Hq Hne. induction Hlow as [|m rest Hm _ IH]; simpl.
    - reflexivity.
    - destruct (relevant (match_score m)) eqn:E; [|exact IH].
      apply relevant_true in E. contradiction. }
  rewrite Hk. destruct matches; [congruence|].
  eexists. split; [reflexivity|]. split; reflexivity.
Qed.

(** C7 (as amended).  The fallback is the template around the context, cut
    to its first 500 characters and followed by ["..."] when it is longer.
    A context that is blank is answered by a fixed message without a call.
    Otherwise the model is called once and the fallback is returned when the
    call raises, gives no text, or gives a text that, stripped of the
    whitespace around it, has fewer than 10 characters; else the text is
    returned as it is. *)
Theorem generate_llm_answer_fallback
    (w : world) (context query : str) (tr : list event) :
  let fallback := format_fallback_answer context query in
  fallback
  = lit "**Answer to: " ++ query ++ lit "**" ++ nl ++ nl ++
    lit "Based on the retrieved documents:" ++ nl ++ nl ++
    (if 500 <? len context then firstn 500 context ++ lit "..." else context)
    ++ nl ++ nl ++
    lit "*Note: This is a direct extract from your documents. For a more refined answer, please check the system logs.*"
  /\
  generate_llm_answer w context query tr
  = if is_empty (strip context) then (Ret no_context_answer, tr)
    else
      (Ret match chat_completion w system_content (prompt context query) with
           | inl _ | inr None => fallback
           | inr (Some text) =>
               if len (strip text) <? 10 then fallback else text
           end,
       tr ++ [EvChat system_content (prompt context query)]).
Proof.
  intros fallback. split.
  - unfold fallback, format_fallback_answer.
    rewrite Z.gtb_ltb. reflexivity.
  - destruct (is_empty (strip context)) eqn:E.
    + apply generate_llm_answer_blank. exact E.
    + apply generate_llm_answer_call. exact E.
Qed.

End AnswerClaims.

Section AnswerSamples.

(** Scenario C of the specification: three of four matches pass the
    filter. *)
Lemma process_answer_relevance_filter_witness :
  exists r,
    process_answer
      (sample_world 500 50 four_matches_three_relevant good_answer (inr tt))
      (lit "q") 4 []
    = (Ret r, [EvChat system_content
                 (prompt (join context_separator
                            [lit "one"; lit "three"; lit "four"]) (lit "q"))]) /\
    map src_chunkId (sources r) = [Some 0; Some 2; Some 3].
Proof.
  destruct (process_answer_relevance_filter
              (sample_world 500 50 four_matches_three_relevant good_answer (inr tt))
              (lit "q") 4 [])
    as (r & tr_llm & Hrun & _ & Hsrc & _).
  exists r. split.
  - rewrite Hrun. vm_compute in Hrun. injection Hrun as _ <-. reflexivity.
  - rewrite Hsrc. reflexivity.
Defined.

(** Two matches with scores 0.3 and 0.1. *)
Lemma process_answer_below_threshold_witness :
  process_answer
    (sample_world 500 50 two_matches_none_relevant good_answer (inr tt))
    (lit "q") 4 []
  = (Ret {| answer := not_relevant_answer; sources := [];
            chunks_used := None; error := None |}, []).
Proof.
  destruct (process_answer_below_threshold
              (sample_world 500 50 two_matches_none_relevant good_answer (inr tt))
              (lit "q") 4 [1%Q; 0%Q] two_matches_none_relevant [])
    as (r & Hrun & _ & Hr).
  - reflexivity.
  - reflexivity.
  - discriminate.
  - repeat constructor; intro H; vm_compute in H; discriminate H.
  - rewrite Hrun, (Hr eq_refl). reflexivity.
Defined.

(** C5 fails when four matches pass the filter: the model is called with
    the first three contexts and [chunks_used] is 4. *)
Theorem chunks_used_counts_unused_context :
  exists r tr,
    process_answer
      (sample_world 500 50 four_matches_all_relevant good_answer (inr tt))
      (lit "q") 4 []
    = (Ret r, tr) /\
    tr = [EvChat system_content
            (prompt (join context_separator
                       [lit "one"; lit "two"; lit "three"]) (lit "q"))] /\
    chunks_used r = Some 4 /\
    length (sources r) = 4%nat.
Proof.
  eexists _, _. split; [vm_compute; reflexivity|].
  repeat split.
Qed.

(** C7, as the specification states it, fails: a text of 12 characters of
    which 10 are trailing spaces is neither empty nor shorter than 10
    characters, and the fallback is returned. *)
Lemma fallback_on_padded_answer :
  len (lit "ok          ") = 12 /\
  ~ fallback_as_specified
      (sample_world 500 50 [] (inr (Some (lit "ok          "))) (inr tt))
      (lit "some context") (lit "q").
Proof.
  split; [reflexivity|].
  intros H. destruct (H []) as [H1 _].
  specialize (H1 eq_refl). vm_compute in H1. discriminate H1.
Qed.

(** The padded answer triggers the fallback. *)
Lemma generate_llm_answer_fallback_witness :
  generate_llm_answer
    (sample_world 500 50 [] (inr (Some (lit "ok          "))) (inr tt))
    (lit "some context") (lit "q") []
  = (Ret (format_fallback_answer (lit "some context") (lit "q")),
     [EvChat system_content (prompt (lit "some context") (lit "q"))]).
Proof.
  exact (proj2 (generate_llm_answer_fallback
                  (sample_world 500 50 [] (inr (Some (lit "ok          "))) (inr tt))
                  (lit "some context") (lit "q") [])).
Defined.

End AnswerSamples.

(* ================================================================= *)
(** ** The ingest operation *)

Section IngestFacts.

Variable w : world.

Ltac run := unfold try_except, bind, call, emit, ret, raise.

Lemma notifications_app (tr1 tr2 : list event) :
  notifications (tr1 ++ tr2) = (notifications tr1 + notifications tr2)%nat.
Proof. unfold notifications. rewrite filter_app, length_app. reflexivity. Qed.

Lemma notifications_snoc (tr : list event) (ev : event) :
  notifications (tr ++ [ev])
  = (notifications tr + match ev with EvNotify _ => 1 | _ => 0 end)%nat.
Proof. rewrite notifications_app. destruct ev; reflexivity. Qed.

(** A status update always returns and is sent exactly once, whether the
    backend accepts it or not. *)
Lemma notify_node_update_returns (file_id status : str)
    (pages : option pyvalue)
    (error_message : option str) (tr : list event) :
  exists res payload,
    notify_node_update w file_id status pages error_message tr
    = (Ret res, tr ++ [EvNotify payload]) /\
    np_fileId payload = file_id /\ np_status payload = status /\
    np_pages payload = pages.
Proof.
  unfold notify_node_update. run.
  destruct (requests_post w _) as [e|text]; eexists _, _; split;
    try reflexivity; repeat split.
Qed.

(** The handler of [process_ingest] returns the failure response after one
    status update. *)
Lemma ingest_handler_returns (fileId : str) (e : exn) (tr : list event) :
  exists payload,
    ingest_handler w fileId e tr
    = (Ret {| ok := false; indexed_chunks := None; reason := Some e |},
       tr ++ [EvNotify payload]) /\
    np_status payload = lit "failed".
Proof.
  unfold ingest_handler.
  destruct (notify_node_update_returns fileId (lit "failed")
              (Some (PyStr e)) None tr)
    as (res & payload & Hrun & _ & Hst & _).
  exists payload. unfold bind. rewrite Hrun. split; [reflexivity|exact Hst].
Qed.

(** The upsert loop returns or raises, and sends no status update. *)
Lemma upsert_loop_result (batch : list vector_record) (starts : list Z)
    (tr : list event) :
  let loop :=
    for_each starts
      (fun i => bind (emit (EvUpsert (slice batch i (i + 100))))
                  (fun _ => call (index_upsert w (slice batch i (i + 100))))) in
  notifications (snd (loop tr)) = notifications tr.
Proof.
  cbv zeta.
  set (body := fun i => bind (emit (EvUpsert (slice batch i (i + 100))))
                 (fun _ => call (index_upsert w (slice batch i (i + 100))))).
  assert (Hbody : forall i tr,
             body i tr
             = match index_upsert w (slice batch i (i + 100)) with
               | inl e => (Raise e, tr ++ [EvUpsert (slice batch i (i + 100))])
               | inr u => (Ret u, tr ++ [EvUpsert (slice batch i (i + 100))])
               end).
  { intros i tr0. unfold body. run.
    destruct (index_upsert w _); reflexivity. }
  clearbody body. revert tr.
  induction starts as [|i rest IH]; intros tr.
  - reflexivity.
  - cbn [for_each]. unfold bind. rewrite Hbody.
    destruct (index_upsert w (slice batch i (i + 100))) as [e|u].
    + cbn [fst snd]. rewrite notifications_snoc. lia.
    + pose proof (IH (tr ++ [EvUpsert (slice batch i (i + 100))])) as H2.
      rewrite notifications_snoc, Nat.add_0_r in H2.
      exact H2.
Qed.

Lemma bind_call_inl {A B} (e : exn) (k : A -> M B) (tr : list event) :
  bind (call (inl e)) k tr = (Raise e, tr).
Proof. reflexivity. Qed.

Lemma bind_call_inr {A B} (a : A) (k : A -> M B) (tr : list event) :
  bind (call (inr a)) k tr = k a tr.
Proof. reflexivity. Qed.

Lemma bind_emit {B} (ev : event) (k : unit -> M B) (tr : list event) :
  bind (emit ev) k tr = k tt (tr ++ [ev]).
Proof. reflexivity. Qed.

(** What the [try] block of [process_ingest] can do, and the number of
    status updates it has sent by then: one when it returns, and none when
    it raises unless it is the removal of the temporary file that raises,
    after the update. *)
Lemma ingest_body_outcome (fuel : nat) (fileId fileUrl originalName : str)
    (tr : list event) :
  match ingest_body fuel w fileId fileUrl originalName tr with
  | (Ret r, tr') =>
      notifications tr' = S (notifications tr) /\
      (ok r = true /\ indexed_chunks r <> None \/
       ok r = false /\ reason r <> None)
  | (Raise e, tr') =>
      notifications tr' = notifications tr \/
      notifications tr' = S (notifications tr) /\
      exists path, download_file w fileUrl = inr path /\
                   os_remove w path = inl e
  end.
Proof.
  unfold ingest_body.
  destruct (download_file w fileUrl) as [e|path] eqn:Hd;
    [rewrite bind_call_inl; left; reflexivity|rewrite bind_call_inr].
  destruct (extract_pdf_text w path) as [e|text] eqn:Hx;
    [rewrite bind_call_inl; left; reflexivity|rewrite bind_call_inr].
  destruct (strip text) as [|c s].
  - unfold bind at 1.
    destruct (notify_node_update_returns fileId (lit "failed")
                (Some (PyStr (lit "Empty text extracted"))) None tr)
      as (res & payload & -> & _).
    unfold ret. split.
    + rewrite notifications_snoc. lia.
    + right. split; [reflexivity|discriminate].
  - destruct (chunk_text fuel text (CHUNK_SIZE w) (CHUNK_OVERLAP w))
      as [chunks|] eqn:Hc.
    2:{ left. reflexivity. }
    destruct (embed_documents w chunks) as [e|vectors];
      [rewrite bind_call_inl; left; reflexivity|rewrite bind_call_inr].
    destruct (build_batch fileId originalName chunks 0 vectors []) as [e|batch];
      [rewrite bind_call_inl; left; reflexivity|rewrite bind_call_inr].
    cbv zeta. unfold bind at 1.
    pose proof (upsert_loop_result batch (range 0 (len batch) 100) tr) as Hn.
    cbv zeta in Hn.
    destruct (for_each (range 0 (len batch) 100) _ tr) as [[u|e] tr1];
      cbn [fst snd] in Hn.
    + unfold bind at 1.
      destruct (notify_node_update_returns fileId (lit "indexed")
                  (Some (PyInt (len chunks))) None tr1)
        as (res & payload & -> & _).
      rewrite bind_emit.
      destruct (os_remove w path) as [e|[]] eqn:Hr.
      * rewrite bind_call_inl. right. split.
        -- rewrite !notifications_snoc. lia.
        -- exists path. auto.
      * rewrite bind_call_inr. unfold ret. split.
        -- rewrite !notifications_snoc. lia.
        -- left. split; [reflexivity|discriminate].
    + left. exact Hn.
Qed.

End IngestFacts.

Section IngestClaims.

Variable w : world.


(** The one status update of an ingest: when the removal of the temporary
    file does not raise, exactly one update has been sent. *)
Lemma process_ingest_notifies_once (fuel : nat)
    (fileId fileUrl originalName : str) (tr : list event) :
  (forall path e, download_file w fileUrl = inr path ->
                  os_remove w path <> inl e) ->
  notifications (snd (process_ingest fuel w fileId fileUrl originalName tr))
  = S (notifications tr).
Proof.
  intros Hrm. unfold process_ingest, try_except.
  pose proof (ingest_body_outcome w fuel fileId fileUrl originalName tr) as H.
  destruct (ingest_body fuel w fileId fileUrl originalName tr)
    as [[r|e] tr']; cbn [fst snd].
  - apply H.
  - destruct (ingest_handler_returns w fileId e tr') as (payload & -> & _).
    cbn [snd]. rewrite notifications_snoc.
    destruct H as [H|(_ & path & Hd & Hr)]; [lia|].
    exfalso. exact (Hrm path e Hd Hr).
Qed.


End IngestClaims.

Section IngestSamples.

(** C6 fails when the removal of the temporary file raises: the update
    "indexed" has been sent and the handler sends "failed", two updates for
    one ingest. *)
Theorem ingest_notification_count_off :
  exists r tr,
    process_ingest 4
      (sample_world 500 50 [] good_answer
         (inl (lit "[Errno 2] No such file or directory")))
      (lit "f1") (lit "https://files.example/doc.pdf") (lit "doc.pdf") []
    = (Ret r, tr) /\
    ok r = false /\
    statuses tr = [lit "indexed"; lit "failed"] /\
    notifications tr = 2%nat.
Proof.
  eexists _, _. split; [vm_compute; reflexivity|]. repeat split.
Qed.


End IngestSamples.

(* ================================================================= *)
(** ** More on the chunker *)

Section ChunkerMore.

Lemma split_from_nil (s cur : str) :
  split_from cur s = [] -> cur = [] /\ lstrip s = [].
Proof.
  revert cur. induction s as [|c s IH]; intros cur; simpl.
  - destruct cur; [auto|discriminate].
  - destruct (isspace c).
    + destruct cur; [apply IH|discriminate].
    + intros H. apply IH in H. destruct H as [H _]. discriminate H.
Qed.

(** A text is blank exactly when stripping it leaves nothing. *)
Lemma strip_nil_iff_blank (s : str) : strip s = [] <-> blank s.
Proof.
  split; [apply strip_blank_split|].
  unfold blank, split, strip. intros H.
  apply split_from_nil in H. destruct H as [_ H]. rewrite H. reflexivity.
Qed.

Lemma blank_nil_or_spaces (text : str) :
  blank text -> forall fuel size overlap,
    chunk_text fuel text size overlap = Some [].
Proof.
  intros H fuel size overlap. unfold chunk_text.
  destruct text; [reflexivity|].
  unfold blank in H. rewrite H. reflexivity.
Qed.

(** The chunks gathered so far stay in front of the result. *)
Lemma chunk_loop_extends (tokens : list str) (size overlap : Z)
    (fuel : nat) (i : Z) (acc r : list str) :
  chunk_loop fuel tokens size overlap i acc = Some r ->
  exists rest, r = acc ++ rest.
Proof.
  revert i acc. induction fuel as [|fuel IH]; intros i acc; simpl.
  - discriminate.
  - destruct (i <? len tokens).
    + intros H. apply IH in H. destruct H as [rest ->].
      eexists. rewrite <- app_assoc. reflexivity.
    + intros [= <-]. exists []. rewrite app_nil_r. reflexivity.
Qed.

(** What a run that returns has produced. *)
Lemma chunk_text_result (text : str) (size overlap : Z)
    (fuel : nat) (chunks : list str) :
  0 < size - overlap ->
  chunk_text fuel text size overlap = Some chunks ->
  chunks = chunks_from (split text) size overlap 0
             (Z.to_nat (ceil_div (len (split text)) (size - overlap))).
Proof.
  intros Hd Hrun.
  pose proof (chunk_text_run size overlap text _ Hd (Nat.lt_succ_diag_r _))
    as Hfull.
  exact (chunk_text_deterministic _ _ _ _ _ _ _ Hrun Hfull).
Qed.

(** The tokens of the chunk taken at round [k]. *)
Lemma chunks_from_tokens (text : str) (size overlap : Z) (k : nat) :
  0 <= overlap < size ->
  (k < Z.to_nat (ceil_div (len (split text)) (size - overlap)))%nat ->
  split (chunk_at (split text) size (0 + Z.of_nat k * (size - overlap)))
  = firstn (Z.to_nat size)
      (skipn (k * Z.to_nat (size - overlap)) (split text)).
Proof.
  intros Hso Hk.
  pose proof (start_in_range (len (split text)) (size - overlap) k
                ltac:(lia) Hk) as Hst.
  rewrite Z.add_0_l, chunk_at_tokens, slice_window by lia.
  do 2 f_equal. lia.
Qed.

Lemma firstn_more {A} (a b : nat) (l : list A) :
  firstn a l ++ firstn b (skipn a l) = firstn (a + b) l.
Proof.
  revert l. induction a as [|a IH]; intros l; simpl.
  - reflexivity.
  - destruct l as [|x l]; simpl.
    + rewrite firstn_nil. reflexivity.
    + rewrite IH. reflexivity.
Qed.

(** Consecutive blocks of [d] elements make up a prefix. *)
Lemma blocks_concat {A} (d m : nat) (l : list A) :
  concat (map (fun k => firstn d (skipn (k * d) l)) (seq 0 m))
  = firstn (m * d) l.
Proof.
  induction m as [|m IH].
  - reflexivity.
  - rewrite seq_S, map_app, concat_app, IH. simpl.
    rewrite app_nil_r, firstn_more. f_equal. lia.
Qed.

(** A text with a token gives a chunk, if the run returns. *)
Lemma chunk_text_some_chunk (text : str) (size overlap : Z)
    (fuel : nat) (chunks : list str) :
  ~ blank text ->
  chunk_text fuel text size overlap = Some chunks -> chunks <> [].
Proof.
  intros Hnb. unfold chunk_text, blank in *.
  destruct text as [|c t]; [exfalso; apply Hnb; reflexivity|].
  destruct (split (c :: t)) as [|tok toks] eqn:Et; [congruence|].
  change (len (tok :: toks) =? 0) with false. cbv iota.
  destruct fuel as [|fuel]; [discriminate|].
  cbn [chunk_loop].
  change (0 <? len (tok :: toks)) with true. cbv iota.
  intros H. apply chunk_loop_extends in H. destruct H as [rest ->].
  discriminate.
Qed.

(** A text with a token and a stride that is not positive: the loop is
    entered and never left. *)
Lemma chunk_text_stuck (text : str) (size overlap : Z) (fuel : nat) :
  ~ blank text ->
  size <= overlap ->
  chunk_text fuel text size overlap = None.
Proof.
  intros Hnb Hso. unfold chunk_text, blank in *.
  destruct text as [|c t]; [exfalso; apply Hnb; reflexivity|].
  destruct (split (c :: t)) as [|tok toks] eqn:Et; [congruence|].
  change (len (tok :: toks) =? 0) with false. cbv iota.
  apply chunk_loop_stuck; [lia|reflexivity].
Qed.

(** X1.  [chunk_text] returns the empty list, whatever the two parameters,
    when the text has no token; when the text has a token a run that
    returns gives at least one chunk. *)
Theorem chunk_text_empty_iff_blank (text : str) (size overlap : Z) :
  (blank text ->
   forall fuel, chunk_text fuel text size overlap = Some []) /\
  (~ blank text ->
   forall fuel chunks,
     chunk_text fuel text size overlap = Some chunks -> chunks <> []).
Proof.
  split.
  - intros H fuel. apply blank_nil_or_spaces. exact H.
  - intros Hnb fuel chunks. apply chunk_text_some_chunk. exact Hnb.
Qed.

(** X2.  When the text has a token and [chunk_overlap >= chunk_size], the
    loop of [chunk_text] never ends: no amount of fuel gives a result. *)
Theorem chunk_text_never_returns (text : str) (size overlap : Z) :
  ~ blank text ->
  size <= overlap ->
  forall fuel, chunk_text fuel text size overlap = None.
Proof.
  intros Hnb Hso fuel. apply chunk_text_stuck; assumption.
Qed.

(** X3.  With [0 <= overlap < size], [chunk_text] returns, and the first
    [overlap] tokens of every chunk after the first are the tokens of the
    chunk before it from position [size - overlap] on. *)
Theorem chunk_text_shared_tokens (text : str) (size overlap : Z) :
  0 <= overlap < size ->
  exists chunks,
    (forall fuel, (Z.to_nat (len (split text)) < fuel)%nat ->
       chunk_text fuel text size overlap = Some chunks) /\
    forall k, (S k < length chunks)%nat ->
      firstn (Z.to_nat overlap) (split (nth (S k) chunks []))
      = skipn (Z.to_nat (size - overlap)) (split (nth k chunks [])).
Proof.
  intros Hso. eexists. split.
  - intros fuel Hfuel. apply chunk_text_run; lia.
  - intros k Hk. rewrite chunks_from_length in Hk.
    rewrite !chunks_from_nth by lia.
    rewrite !chunks_from_tokens by lia.
    rewrite firstn_firstn, skipn_firstn_comm, skipn_skipn.
    replace (Nat.min (Z.to_nat overlap) (Z.to_nat size))
      with (Z.to_nat overlap) by lia.
    replace (Z.to_nat size - Z.to_nat (size - overlap))%nat
      with (Z.to_nat overlap) by lia.
    do 2 f_equal; lia.
Qed.

(** X4.  With [0 <= overlap < size], [chunk_text] returns, and the first
    [size - overlap] tokens of the chunks, put end to end, are the tokens
    of the text: no token is dropped or reordered. *)
Theorem chunk_text_reassemble (text : str) (size overlap : Z) :
  0 <= overlap < size ->
  exists chunks,
    (forall fuel, (Z.to_nat (len (split text)) < fuel)%nat ->
       chunk_text fuel text size overlap = Some chunks) /\
    concat (map (fun c => firstn (Z.to_nat (size - overlap)) (split c)) chunks)
    = split text.
Proof.
  intros Hso. eexists. split.
  - intros fuel Hfuel. apply chunk_text_run; lia.
  - set (d := Z.to_nat (size - overlap)).
    set (m := Z.to_nat (ceil_div (len (split text)) (size - overlap))).
    unfold chunks_from. rewrite map_map.
    rewrite (map_ext_in _ (fun k => firstn d (skipn (k * d) (split text)))).
    + rewrite blocks_concat. apply firstn_all2.
      pose proof (ceil_div_bounds (len (split text)) (size - overlap)
                    ltac:(lia)) as [_ Hhi].
      assert (0 <= len (split text)) by (unfold len; lia).
      unfold len in *. subst m d. nia.
    + intros k Hin. apply in_seq in Hin.
      rewrite chunks_from_tokens by (fold m; lia).
      fold d. rewrite firstn_firstn. f_equal. subst d. lia.
Qed.

End ChunkerMore.

(* ================================================================= *)
(** ** More on the ingest operation *)

From Stdlib Require DecimalZ DecimalPos FinFun.

Section BatchFacts.

Lemma lit_inj (a b : string) : lit a = lit b -> a = b.
Proof.
  unfold lit. intros H.
  rewrite <- (string_of_list_ascii_of_string a),
          <- (string_of_list_ascii_of_string b).
  f_equal.
  apply (f_equal (map ascii_of_N)) in H.
  rewrite !map_map in H.
  rewrite !(map_ext _ (fun x => x) ascii_N_embedding), !map_id in H.
  exact H.
Qed.

(** [str(n)] tells integers apart. *)
Lemma str_of_Z_inj (a b : Z) : str_of_Z a = str_of_Z b -> a = b.
Proof.
  unfold str_of_Z. intros H. apply lit_inj in H.
  assert (Hnn : forall z, Z.to_int z <> Decimal.Pos Decimal.Nil /\
                          Z.to_int z <> Decimal.Neg Decimal.Nil).
  { intros [|p|p]; simpl; split; try discriminate;
      intros [= E]; exact (DecimalPos.Unsigned.to_uint_nonnil p E). }
  apply (f_equal NilZero.int_of_string) in H.
  rewrite !NilZero.isi in H by apply Hnn.
  injection H as H. apply DecimalZ.to_int_inj. exact H.
Qed.

Lemma build_batch_run (fileId originalName : str) (chunks : list str)
    (vectors : list (list Q)) (i : nat) (batch : list vector_record) :
  (i + length vectors <= length chunks)%nat ->
  build_batch fileId originalName chunks i vectors batch
  = inr (batch ++
         map (fun kv => chunk_record fileId originalName (fst kv) (snd kv)
                          (nth (fst kv) chunks []))
             (combine (seq i (length vectors)) vectors)).
Proof.
  revert i batch. induction vectors as [|vec rest IH]; intros i batch Hlen.
  - simpl. rewrite app_nil_r. reflexivity.
  - cbn [build_batch]. cbn [length] in Hlen.
    rewrite (nth_error_nth' chunks []) by lia.
    rewrite IH by lia. cbn [length seq combine map fst snd].
    rewrite <- app_assoc. reflexivity.
Qed.

Lemma build_batch_short (fileId originalName : str) (chunks : list str)
    (vectors : list (list Q)) (i : nat) (batch : list vector_record) :
  (i <= length chunks < i + length vectors)%nat ->
  build_batch fileId originalName chunks i vectors batch
  = inl (lit "list index out of range").
Proof.
  revert i batch. induction vectors as [|vec rest IH]; intros i batch Hlen.
  - simpl in Hlen. lia.
  - cbn [build_batch]. cbn [length] in Hlen.
    destruct (nth_error chunks i) as [text|] eqn:E; [|reflexivity].
    apply IH.
    assert (i < length chunks)%nat
      by (apply nth_error_Some; rewrite E; discriminate).
    lia.
Qed.

End BatchFacts.

Section BatchClaims.

Lemma combine_seq_nth {A} (vs : list A) (i k : nat) (v : A) :
  nth_error vs k = Some v ->
  nth_error (combine (seq i (length vs)) vs) k = Some ((i + k)%nat, v).
Proof.
  revert i k. induction vs as [|x vs IH]; intros i k H.
  - destruct k; discriminate.
  - destruct k as [|k]; simpl in *.
    + injection H as <-. rewrite Nat.add_0_r. reflexivity.
    + rewrite (IH (S i) k H). do 2 f_equal. lia.
Qed.

Lemma combine_seq_fst {A B} (h : nat -> B) (vs : list A) (i : nat) :
  map (fun kv => h (fst kv)) (combine (seq i (length vs)) vs)
  = map h (seq i (length vs)).
Proof.
  revert i. induction vs as [|x vs IH]; intros i; simpl.
  - reflexivity.
  - rewrite IH. reflexivity.
Qed.

(** X5.  The loop that fills [batch] gives one record for each vector, in
    order: record [k] has id [fileId_k], chunk id [k] and the text of chunk
    [k], and no two records share an id.  When there are more vectors than
    chunks the loop raises [IndexError]. *)
Theorem build_batch_records (fileId originalName : str)
    (chunks : list str) (vectors : list (list Q)) :
  ((length vectors <= length chunks)%nat ->
   exists batch,
     build_batch fileId originalName chunks 0 vectors [] = inr batch /\
     length batch = length vectors /\
     NoDup (map vr_id batch) /\
     forall k vec,
       nth_error vectors k = Some vec ->
       nth_error batch k
       = Some (chunk_record fileId originalName k vec (nth k chunks []))) /\
  ((length chunks < length vectors)%nat ->
   build_batch fileId originalName chunks 0 vectors []
   = inl (lit "list index out of range")).
Proof.
  split.
  - intros Hlen. eexists. split; [apply build_batch_run; lia|].
    rewrite app_nil_l. split; [|split].
    + rewrite length_map, length_combine, length_seq. lia.
    + rewrite map_map. cbn [chunk_record vr_id fst].
      rewrite (combine_seq_fst
                 (fun k => fileId ++ lit "_" ++ str_of_Z (Z.of_nat k))).
      apply Finite.Injective_map_NoDup; [|apply seq_NoDup].
      intros a b E.
      apply app_inv_head, app_inv_head, str_of_Z_inj in E. lia.
    + intros k vec Hk.
      rewrite nth_error_map, (combine_seq_nth vectors 0 k vec Hk).
      reflexivity.
  - intros Hlen. apply build_batch_short. lia.
Qed.

(** X7.  The upsert calls of [process_ingest] split the batch into
    consecutive groups: put end to end the groups are the batch, every
    group holds between 1 and 100 records, and there are
    [ceil(len(batch) / 100)] of them. *)
Theorem upsert_batches_partition (batch : list vector_record) :
  concat (upsert_batches batch) = batch /\
  Forall (fun group => 1 <= len group <= 100) (upsert_batches batch) /\
  len (upsert_batches batch) = ceil_div (len batch) 100.
Proof.
  unfold upsert_batches, range.
  replace ((len batch - 0 + 100 - 1) / 100) with (ceil_div (len batch) 100)
    by (unfold ceil_div; f_equal; lia).
  set (m := Z.to_nat (ceil_div (len batch) 100)).
  assert (Hn : 0 <= len batch) by (unfold len; lia).
  pose proof (ceil_div_bounds (len batch) 100 ltac:(lia)) as [Hlo Hhi].
  assert (Hstart : forall k, In k (seq 0 m) ->
                     0 <= 0 + Z.of_nat k * 100 < len batch).
  { intros k Hin. apply in_seq in Hin.
    pose proof (start_in_range (len batch) 100 k ltac:(lia) ltac:(fold m; lia)).
    lia. }
  rewrite map_map. split; [|split].
  - rewrite (map_ext_in _ (fun k => firstn 100 (skipn (k * 100) batch))).
    + rewrite blocks_concat. apply firstn_all2. unfold len in *. subst m. lia.
    + intros k Hin. specialize (Hstart k Hin).
      rewrite slice_window by lia.
      change (Z.to_nat 100) with 100%nat. do 2 f_equal. lia.
  - apply Forall_forall. intros group Hin.
    apply in_map_iff in Hin. destruct Hin as (k & <- & Hin).
    specialize (Hstart k Hin).
    rewrite slice_length by lia. lia.
  - unfold len at 1. rewrite length_map, length_seq. subst m.
    destruct (Z.eq_dec (len batch) 0) as [E|E].
    + rewrite E. reflexivity.
    + pose proof (ceil_div_pos (len batch) 100 ltac:(lia) ltac:(lia)). lia.
Qed.

End BatchClaims.

Section IngestTrace.

Variable w : world.

(** The upsert loop sends its groups in order and stops at the first call
    that raises. *)
Lemma upsert_loop_trace (batch : list vector_record) (starts : list Z)
    (tr : list event) :
  match
    for_each starts
      (fun i => bind (emit (EvUpsert (slice batch i (i + 100))))
                  (fun _ => call (index_upsert w (slice batch i (i + 100)))))
      tr
  with
  | (Ret _, tr') =>
      tr' = tr ++ map EvUpsert (map (fun i => slice batch i (i + 100)) starts)
  | (Raise e, tr') => exists sent, tr' = tr ++ map EvUpsert sent
  end.
Proof.
  set (body := fun i => bind (emit (EvUpsert (slice batch i (i + 100))))
                 (fun _ => call (index_upsert w (slice batch i (i + 100))))).
  assert (Hbody : forall i tr,
             body i tr
             = match index_upsert w (slice batch i (i + 100)) with
               | inl e => (Raise e, tr ++ [EvUpsert (slice batch i (i + 100))])
               | inr u => (Ret u, tr ++ [EvUpsert (slice batch i (i + 100))])
               end).
  { intros i tr0. unfold body, bind, emit, call, ret, raise.
    destruct (index_upsert w _); reflexivity. }
  clearbody body. revert tr.
  induction starts as [|i rest IH]; intros tr.
  - cbn. rewrite app_nil_r. reflexivity.
  - cbn [for_each]. unfold bind. rewrite Hbody.
    destruct (index_upsert w (slice batch i (i + 100))) as [e|u].
    + exists [slice batch i (i + 100)]. reflexivity.
    + specialize (IH (tr ++ [EvUpsert (slice batch i (i + 100))])).
      destruct (for_each rest body _) as [[u'|e] tr'].
      * rewrite IH, <- app_assoc. reflexivity.
      * destruct IH as [sent ->].
        exists (slice batch i (i + 100) :: sent).
        rewrite <- app_assoc. reflexivity.
Qed.

(** A status update as one step: it returns and leaves one event. *)
Lemma notify_node_update_run (file_id status : str) (pages : option pyvalue)
    (error_message : option str) (tr : list event) :
  let payload :=
    {| np_fileId := file_id; np_status := status; np_pages := pages;
       np_errorMessage := match error_message with
                          | Some (c :: m) => Some (c :: m)
                          | _ => None
                          end |} in
  notify_node_update w file_id status pages error_message tr
  = (Ret match requests_post w payload with
         | inl e => (false, e)
         | inr text => (true, text)
         end,
     tr ++ [EvNotify payload]).
Proof.
  cbv zeta. unfold notify_node_update, try_except, bind, emit, call, ret, raise.
  destruct (requests_post w _); reflexivity.
Qed.

(** Every way through the [try] block of [process_ingest], with the calls
    it has made by then. *)
Lemma ingest_body_trace (fuel : nat) (fileId fileUrl originalName : str)
    (tr : list event) :
  match ingest_body fuel w fileId fileUrl originalName tr with
  | (Ret r, tr') =>
      exists path text,
        download_file w fileUrl = inr path /\
        extract_pdf_text w path = inr text /\
        (strip text = [] /\
         r = {| ok := false; indexed_chunks := None;
                reason := Some (lit "Empty text") |} /\
         tr' = tr ++ [failed_update fileId (lit "Empty text extracted")]
         \/
         exists chunks vectors batch,
           strip text <> [] /\
           chunk_text fuel text (CHUNK_SIZE w) (CHUNK_OVERLAP w) = Some chunks /\
           embed_documents w chunks = inr vectors /\
           build_batch fileId originalName chunks 0 vectors [] = inr batch /\
           os_remove w path = inr tt /\
           r = {| ok := true; indexed_chunks := Some (len chunks);
                  reason := None |} /\
           tr' = tr ++ map EvUpsert (upsert_batches batch)
                    ++ [indexed_update fileId chunks; EvRemove path])
  | (Raise e, tr') =>
      exists sent,
        tr' = tr ++ map EvUpsert sent \/
        exists path chunks,
          os_remove w path = inl e /\
          tr' = tr ++ map EvUpsert sent
                   ++ [indexed_update fileId chunks; EvRemove path]
  end.
Proof.
  unfold ingest_body.
  destruct (download_file w fileUrl) as [e|path] eqn:Hd;
    [rewrite bind_call_inl; exists []; left; rewrite app_nil_r; reflexivity
    |rewrite bind_call_inr].
  destruct (extract_pdf_text w path) as [e|text] eqn:Hx;
    [rewrite bind_call_inl; exists []; left; rewrite app_nil_r; reflexivity
    |rewrite bind_call_inr].
  destruct (strip text) as [|c s] eqn:Hs.
  - unfold bind at 1. rewrite notify_node_update_run. unfold ret.
    exists path, text. split; [reflexivity|]. split; [exact Hx|]. left.
    repeat split. exact Hs.
  - destruct (chunk_text fuel text (CHUNK_SIZE w) (CHUNK_OVERLAP w))
      as [chunks|] eqn:Hc;
      [|exists []; left; rewrite app_nil_r; reflexivity].
    destruct (embed_documents w chunks) as [e|vectors] eqn:He;
      [rewrite bind_call_inl; exists []; left; rewrite app_nil_r; reflexivity
      |rewrite bind_call_inr].
    destruct (build_batch fileId originalName chunks 0 vectors [])
      as [e|batch] eqn:Hb;
      [rewrite bind_call_inl; exists []; left; rewrite app_nil_r; reflexivity
      |rewrite bind_call_inr].
    cbv zeta. unfold bind at 1.
    pose proof (upsert_loop_trace batch (range 0 (len batch) 100) tr) as Hloop.
    destruct (for_each (range 0 (len batch) 100) _ tr) as [[u|e] tr1].
    + subst tr1. fold (upsert_batches batch).
      unfold bind at 1.
      rewrite notify_node_update_run. rewrite bind_emit.
      destruct (os_remove w path) as [e|[]] eqn:Hr.
      * rewrite bind_call_inl. exists (upsert_batches batch). right.
        exists path, chunks. split; [exact Hr|].
        rewrite <- !app_assoc. reflexivity.
      * rewrite bind_call_inr. unfold ret.
        exists path, text. split; [reflexivity|]. split; [exact Hx|]. right.
        exists chunks, vectors, batch.
        split; [congruence|]. repeat split; try assumption.
        rewrite <- !app_assoc. reflexivity.
    + destruct Hloop as [sent ->]. exists sent. left. reflexivity.
Qed.

End IngestTrace.

Section IngestMore.

Variable w : world.

Lemma ingest_handler_run (fileId : str) (e : exn) (tr : list event) :
  ingest_handler w fileId e tr
  = (Ret {| ok := false; indexed_chunks := None; reason := Some e |},
     tr ++ [failed_update fileId e]).
Proof.
  unfold ingest_handler. unfold bind at 1.
  rewrite notify_node_update_run. reflexivity.
Qed.

(** Membership in a trace made of upserts and a few given events. *)
Ltac trace_in H :=
  repeat rewrite in_app_iff in H;
  repeat match type of H with
         | _ \/ _ => destruct H as [H|H]
         | In _ (map EvUpsert _) =>
             apply in_map_iff in H; destruct H as (? & H & _)
         | In _ (_ :: _) => destruct H as [H|H]
         | In _ [] => destruct H
         end;
  try discriminate H.

(** X6.  A run of [process_ingest] that answers [ok: true] has chunked the
    extracted text into at least one chunk, sent the whole batch in groups,
    then the update "indexed" with the number of chunks, then removed the
    temporary file, in this order and with no other outbound call; the
    response counts the chunks. *)
Theorem ingest_success_trace (fuel : nat)
    (fileId fileUrl originalName : str) (tr tr' : list event)
    (r : ingest_result) :
  process_ingest fuel w fileId fileUrl originalName tr = (Ret r, tr') ->
  ok r = true ->
  exists path text chunks vectors batch,
    download_file w fileUrl = inr path /\
    extract_pdf_text w path = inr text /\
    chunk_text fuel text (CHUNK_SIZE w) (CHUNK_OVERLAP w) = Some chunks /\
    chunks <> [] /\
    embed_documents w chunks = inr vectors /\
    build_batch fileId originalName chunks 0 vectors [] = inr batch /\
    r = {| ok := true; indexed_chunks := Some (len chunks); reason := None |} /\
    tr' = tr ++ map EvUpsert (upsert_batches batch)
             ++ [indexed_update fileId chunks; EvRemove path].
Proof.
  unfold process_ingest, try_except. intros Hrun Hok.
  pose proof (ingest_body_trace w fuel fileId fileUrl originalName tr) as H.
  destruct (ingest_body fuel w fileId fileUrl originalName tr)
    as [[r0|e] tr0].
  - injection Hrun as -> ->.
    destruct H as (path & text & Hd & Hx & [(_ & -> & _)|H]);
      [discriminate Hok|].
    destruct H as (chunks & vectors & batch & Hs & Hc & He & Hb & _ & -> & ->).
    exists path, text, chunks, vectors, batch.
    repeat split; try assumption.
    apply (chunk_text_some_chunk text (CHUNK_SIZE w) (CHUNK_OVERLAP w) fuel);
      [|exact Hc].
    intro Hbl. apply Hs. apply strip_nil_iff_blank. exact Hbl.
  - rewrite ingest_handler_run in Hrun. injection Hrun as <- _.
    discriminate Hok.
Qed.

(** X8.  When the text of the PDF has no token, [process_ingest] answers
    [{ok: false, reason: "Empty text"}] after one update "failed", whatever
    the fuel: nothing is chunked, embedded, upserted or removed. *)
Theorem ingest_blank_text (fuel : nat)
    (fileId fileUrl originalName path text : str) (tr : list event) :
  download_file w fileUrl = inr path ->
  extract_pdf_text w path = inr text ->
  blank text ->
  process_ingest fuel w fileId fileUrl originalName tr
  = (Ret {| ok := false; indexed_chunks := None;
            reason := Some (lit "Empty text") |},
     tr ++ [failed_update fileId (lit "Empty text extracted")]).
Proof.
  intros Hd Hx Hb. apply strip_nil_iff_blank in Hb.
  unfold process_ingest, try_except, ingest_body.
  rewrite Hd, bind_call_inr, Hx, bind_call_inr, Hb.
  unfold bind at 1. rewrite notify_node_update_run. reflexivity.
Qed.

(** X9.  A run of [process_ingest] that answers [ok: false] ends with an
    update "failed" that carries the failure text in the field [pages] and
    has no [errorMessage]; the text is the reason of the response, except
    for an empty document, where the reason is "Empty text" and the update
    says "Empty text extracted". *)
Theorem ingest_failure_update (fuel : nat)
    (fileId fileUrl originalName : str) (tr tr' : list event)
    (r : ingest_result) :
  process_ingest fuel w fileId fileUrl originalName tr = (Ret r, tr') ->
  ok r = false ->
  exists before message,
    tr' = tr ++ before ++ [failed_update fileId message] /\
    (reason r = Some message \/
     reason r = Some (lit "Empty text") /\
     message = lit "Empty text extracted").
Proof.
  unfold process_ingest, try_except. intros Hrun Hok.
  pose proof (ingest_body_trace w fuel fileId fileUrl originalName tr) as H.
  destruct (ingest_body fuel w fileId fileUrl originalName tr)
    as [[r0|e] tr0].
  - injection Hrun as -> ->.
    destruct H as (path & text & Hd & Hx & [(_ & -> & ->)|H]).
    + exists [], (lit "Empty text extracted").
      split; [reflexivity|]. right. split; reflexivity.
    + destruct H as (chunks & vectors & batch & _ & _ & _ & _ & _ & -> & _).
      discriminate Hok.
  - rewrite ingest_handler_run in Hrun. injection Hrun as <- <-.
    destruct H as [sent [->|(path & chunks & _ & ->)]].
    + exists (map EvUpsert sent), e.
      split; [rewrite <- app_assoc; reflexivity|left; reflexivity].
    + exists (map EvUpsert sent ++ [indexed_update fileId chunks; EvRemove path]), e.
      split; [rewrite <- !app_assoc; reflexivity|left; reflexivity].
Qed.


(** X11.  A run of [process_ingest] that answers [ok: false] has not
    removed the temporary file: the only removal it can have attempted is
    one that raised, and then the reason of the response is that error. *)
Theorem ingest_failure_keeps_temp_file (fuel : nat)
    (fileId fileUrl originalName : str) (tr tr' : list event)
    (r : ingest_result) :
  process_ingest fuel w fileId fileUrl originalName tr = (Ret r, tr') ->
  ok r = false ->
  exists new,
    tr' = tr ++ new /\
    forall path, In (EvRemove path) new ->
      exists e, os_remove w path = inl e /\ reason r = Some e.
Proof.
  unfold process_ingest, try_except. intros Hrun Hok.
  pose proof (ingest_body_trace w fuel fileId fileUrl originalName tr) as H.
  destruct (ingest_body fuel w fileId fileUrl originalName tr)
    as [[r0|e] tr0].
  - injection Hrun as -> ->.
    destruct H as (path & text & Hd & Hx & [(_ & -> & ->)|H]).
    + eexists. split; [reflexivity|].
      intros p Hin. trace_in Hin.
    + destruct H as (chunks & vectors & batch & _ & _ & _ & _ & _ & -> & _).
      discriminate Hok.
  - rewrite ingest_handler_run in Hrun. injection Hrun as <- <-.
    destruct H as [sent [->|(path & chunks & Hr & ->)]].
    + exists (map EvUpsert sent ++ [failed_update fileId e]).
      split; [rewrite <- app_assoc; reflexivity|].
      intros p Hin. trace_in Hin.
    + exists (map EvUpsert sent
              ++ [indexed_update fileId chunks; EvRemove path]
              ++ [failed_update fileId e]).
      split; [rewrite <- !app_assoc; reflexivity|].
      intros p Hin. trace_in Hin.
      injection Hin as <-. exists e. split; [exact Hr|reflexivity].
Qed.

(** X12.  Every status update sent during a run of [process_ingest] is for
    the file being ingested, has a value under [pages] and has no
    [errorMessage]. *)
Theorem ingest_updates_shape (fuel : nat)
    (fileId fileUrl originalName : str) (tr tr' : list event)
    (res : outcome ingest_result) :
  process_ingest fuel w fileId fileUrl originalName tr = (res, tr') ->
  exists new,
    tr' = tr ++ new /\
    forall payload, In (EvNotify payload) new ->
      np_fileId payload = fileId /\
      np_pages payload <> None /\
      np_errorMessage payload = None.
Proof.
  unfold process_ingest, try_except. intros Hrun.
  pose proof (ingest_body_trace w fuel fileId fileUrl originalName tr) as H.
  destruct (ingest_body fuel w fileId fileUrl originalName tr)
    as [[r0|e] tr0].
  - injection Hrun as <- <-.
    destruct H as (path & text & Hd & Hx & [(_ & _ & ->)|H]).
    + eexists. split; [reflexivity|].
      intros p Hin. trace_in Hin. injection Hin as <-.
      repeat split. discriminate.
    + destruct H as (chunks & vectors & batch & _ & _ & _ & _ & _ & _ & ->).
      eexists. split; [reflexivity|].
      intros p Hin. trace_in Hin. injection Hin as <-.
      repeat split. discriminate.
  - rewrite ingest_handler_run in Hrun. injection Hrun as <- <-.
    destruct H as [sent [->|(path & chunks & Hr & ->)]].
    + exists (map EvUpsert sent ++ [failed_update fileId e]).
      split; [rewrite <- app_assoc; reflexivity|].
      intros p Hin. trace_in Hin. injection Hin as <-.
      repeat split. discriminate.
    + exists (map EvUpsert sent
              ++ [indexed_update fileId chunks; EvRemove path]
              ++ [failed_update fileId e]).
      split; [rewrite <- !app_assoc; reflexivity|].
      intros p Hin. trace_in Hin; injection Hin as <-;
        repeat split; discriminate.
Qed.

End IngestMore.

(* ================================================================= *)
(** ** The PDF extractor *)

Section PdfFacts.

Lemma split_from_space (a b cur : str) (c : char) :
  isspace c = true ->
  split_from cur (a ++ c :: b) = split_from cur a ++ split b.
Proof.
  intros Hc. revert cur. induction a as [|x a IH]; intros cur; simpl.
  - rewrite Hc. destruct cur; reflexivity.
  - destruct (isspace x).
    + destruct cur; [apply IH|]. simpl. f_equal. apply IH.
    + apply IH.
Qed.

(** The tokens of lines joined by a newline are the tokens of the lines. *)
Lemma split_join_lines (parts : list str) :
  split (join [10%N] parts) = concat (map split parts).
Proof.
  induction parts as [|p parts IH]; [reflexivity|].
  destruct parts as [|q parts].
  - simpl. rewrite app_nil_r. reflexivity.
  - change (join [10%N] (p :: q :: parts))
      with (p ++ 10%N :: join [10%N] (q :: parts)).
    unfold split at 1. rewrite split_from_space by reflexivity.
    rewrite IH. reflexivity.
Qed.

Lemma read_pages_texts (texts : list str) (text_parts : list str) :
  PdfUtils.read_pages (map inr texts) text_parts
  = inr (text_parts ++ filter (fun t => negb (is_empty t)) texts).
Proof.
  revert text_parts. induction texts as [|t texts IH]; intros acc; simpl.
  - rewrite app_nil_r. reflexivity.
  - destruct t as [|c t]; simpl.
    + apply IH.
    + rewrite IH, <- app_assoc. reflexivity.
Qed.

Lemma read_pages_raises (before : list str) (e : exn)
    (after : list (exn + str)) (text_parts : list str) :
  PdfUtils.read_pages (map inr before ++ inl e :: after) text_parts = inl e.
Proof.
  revert text_parts. induction before as [|t before IH]; intros acc; simpl.
  - reflexivity.
  - destruct t; apply IH.
Qed.

(** Either every page gives a text, or there is a first page that raises. *)
Lemma pages_cases (pages : list (exn + str)) :
  (exists texts, pages = map inr texts) \/
  (exists before e after, pages = map inr before ++ inl e :: after).
Proof.
  induction pages as [|[e|t] pages IH].
  - left. exists []. reflexivity.
  - right. exists [], e, pages. reflexivity.
  - destruct IH as [[texts ->]|(before & e & after & ->)].
    + left. exists (t :: texts). reflexivity.
    + right. exists (t :: before), e, after. reflexivity.
Qed.

Lemma concat_split_nonempty (texts : list str) :
  concat (map split (filter (fun t => negb (is_empty t)) texts))
  = concat (map split texts).
Proof.
  induction texts as [|t texts IH]; [reflexivity|].
  destruct t as [|c t]; simpl; [exact IH|].
  rewrite IH. reflexivity.
Qed.

(** X13.  When the reader and every page give a text, [extract_pdf_text]
    returns the non-empty page texts joined by newlines, and the tokens of
    the result are the tokens of the pages in order: a page break never
    glues two words together and no word is lost. *)
Theorem extract_pdf_text_tokens (PdfReader : str -> exn + list (exn + str))
    (path : str) (texts : list str) :
  PdfReader path = inr (map inr texts) ->
  exists text,
    PdfUtils.extract_pdf_text PdfReader path = inr text /\
    text = join [10%N] (filter (fun t => negb (is_empty t)) texts) /\
    split text = concat (map split texts).
Proof.
  intros Hr. unfold PdfUtils.extract_pdf_text.
  rewrite Hr, read_pages_texts. eexists. split; [reflexivity|].
  split; [reflexivity|].
  cbn [app]. rewrite split_join_lines. apply concat_split_nonempty.
Qed.

(** X14.  [extract_pdf_text] raises exactly when the reader raises or some
    page raises, and the error is the text of the first such failure after
    the words "PDF extraction failed: ". *)
Theorem extract_pdf_text_error (PdfReader : str -> exn + list (exn + str))
    (path : str) (message : exn) :
  PdfUtils.extract_pdf_text PdfReader path = inl message <->
  exists e,
    message = lit "PDF extraction failed: " ++ e /\
    (PdfReader path = inl e \/
     exists before after,
       PdfReader path = inr (map inr before ++ inl e :: after)).
Proof.
  unfold PdfUtils.extract_pdf_text. split.
  - destruct (PdfReader path) as [e|pages].
    + intros [= <-]. exists e. split; [reflexivity|left; reflexivity].
    + destruct (pages_cases pages) as [[texts ->]|(before & e & after & ->)].
      * rewrite read_pages_texts. discriminate.
      * rewrite read_pages_raises. intros [= <-].
        exists e. split; [reflexivity|]. right. exists before, after.
        reflexivity.
  - intros (e & -> & [Hr|(before & after & Hr)]); rewrite Hr.
    + reflexivity.
    + rewrite read_pages_raises. reflexivity.
Qed.

End PdfFacts.

(* ================================================================= *)
(** ** The configuration *)

Section ConfigFacts.




End ConfigFacts.

(* ================================================================= *)
(** ** More on the answer operation and the status update *)

Section AnswerMore.

Variable w : world.

Lemma lit_length (s : string) : length (lit s) = String.length s.
Proof.
  unfold lit. rewrite length_map.
  induction s as [|c s IH]; simpl; [reflexivity|]. rewrite IH. reflexivity.
Qed.

Lemma fallback_length (context query : str) :
  len (format_fallback_answer context query)
  = 164 + len query + (if 500 <? len context then 503 else len context).
Proof.
  unfold format_fallback_answer, nl, len.
  rewrite Z.gtb_ltb.
  destruct (500 <? Z.of_nat (length context)) eqn:Hc;
    [apply Z.ltb_lt in Hc|apply Z.ltb_ge in Hc];
    repeat rewrite length_app; repeat rewrite lit_length;
    try rewrite length_firstn; cbn [String.length length]; lia.
Qed.

(** X16.  The fallback answer grows with the query only: it has 164
    characters of template, the query and the context, of which at most the
    first 500 characters and three dots are kept. *)
Theorem format_fallback_answer_length (context query : str) :
  len (format_fallback_answer context query)
  = 164 + len query + (if 500 <? len context then 503 else len context) /\
  len (format_fallback_answer context query) <= 667 + len query.
Proof.
  split; [apply fallback_length|]. rewrite fallback_length.
  destruct (500 <? len context) eqn:Hc; [|apply Z.ltb_ge in Hc]; lia.
Qed.


Lemma lstrip_length (s : str) : (length (lstrip s) <= length s)%nat.
Proof.
  induction s as [|c s IH]; simpl; [lia|].
  destruct (isspace c); simpl; lia.
Qed.

Lemma strip_length (s : str) : len (strip s) <= len s.
Proof.
  unfold strip, len. rewrite length_rev.
  pose proof (lstrip_length (rev (lstrip s))) as H1.
  rewrite length_rev in H1.
  pose proof (lstrip_length s). lia.
Qed.

(** What [generate_llm_answer] returns has at least 10 characters. *)
Lemma generate_llm_answer_length (context query : str) (tr : list event) :
  exists a tr',
    generate_llm_answer w context query tr = (Ret a, tr') /\ 10 <= len a.
Proof.
  pose proof (fallback_length context query) as Hf.
  assert (0 <= len query) by (unfold len; lia).
  assert (Hfb : 10 <= len (format_fallback_answer context query)).
  { rewrite Hf. assert (0 <= len context) by (unfold len; lia).
    destruct (500 <? len context); lia. }
  destruct (is_empty (strip context)) eqn:E.
  - rewrite generate_llm_answer_blank by exact E.
    eexists _, _. split; [reflexivity|]. vm_compute. discriminate.
  - rewrite generate_llm_answer_call by exact E.
    eexists _, _. split; [reflexivity|].
    destruct (chat_completion w system_content (prompt context query))
      as [e|[text|]]; try exact Hfb.
    destruct (len (strip text) <? 10) eqn:Hl; [exact Hfb|].
    apply Z.ltb_ge in Hl. pose proof (strip_length text). lia.
Qed.

(** X18.  Every payload of [process_answer] has an answer of at least 10
    characters.  When [chunks_used] is present it is the number of sources,
    at least 1, and there is no error; when it is absent there is no
    source.  An error payload's answer is the fixed sentence followed by
    the error. *)
Theorem process_answer_payload_shape (query : str) (top_k : Z)
    (tr : list event) :
  exists r tr',
    process_answer w query top_k tr = (Ret r, tr') /\
    10 <= len (answer r) /\
    match chunks_used r with
    | Some n => n = len (sources r) /\ 1 <= n /\ error r = None
    | None => sources r = []
    end /\
    (forall e, error r = Some e ->
       answer r
       = lit "An error occurred while processing your question: " ++ e).
Proof.
  assert (Herr : forall (e : exn) (tr0 : list event),
             exists r tr',
               (Ret {| answer :=
                         lit "An error occurred while processing your question: "
                         ++ e;
                       sources := []; chunks_used := None; error := Some e |},
                tr0) = (Ret r, tr') /\
               10 <= len (answer r) /\
               match chunks_used r with
               | Some n => n = len (sources r) /\ 1 <= n /\ error r = None
               | None => sources r = []
               end /\
               (forall e', error r = Some e' ->
                  answer r
                  = lit "An error occurred while processing your question: "
                    ++ e')).
  { intros e tr0. eexists _, _. split; [reflexivity|].
    cbn [answer chunks_used sources error].
    split; [|split; [reflexivity|intros e' [= <-]; reflexivity]].
    unfold len. rewrite length_app, lit_length. cbn [String.length]. lia. }
  unfold process_answer, try_except.
  destruct (stdout_print w (query_line query)) as [e|[]] eqn:Hp.
  { rewrite (answer_body_print_raises w query top_k e tr Hp). apply Herr. }
  destruct (embed_query w query) as [e|qvec] eqn:He.
  { rewrite (answer_body_embed_raises w query top_k e tr Hp He). apply Herr. }
  destruct (index_query w qvec top_k) as [e|matches] eqn:Hq.
  { rewrite (answer_body_query_raises w query top_k qvec e tr Hp He Hq).
    apply Herr. }
  rewrite (answer_body_found w query top_k qvec matches tr Hp He Hq).
  destruct matches as [|m rest].
  { eexists _, _. split; [reflexivity|].
    cbn [answer chunks_used sources error].
    split; [vm_compute; discriminate|]. split; [reflexivity|discriminate]. }
  destruct (filter _ (m :: rest)) as [|k ks].
  { eexists _, _. split; [reflexivity|].
    cbn [answer chunks_used sources error].
    split; [vm_compute; discriminate|]. split; [reflexivity|discriminate]. }
  destruct (generate_llm_answer_length
              (join context_separator (firstn 3 (map match_text (k :: ks))))
              query tr) as (a & tr' & Hrun & Hlen).
  unfold bind. rewrite Hrun. unfold ret.
  eexists _, _. split; [reflexivity|]. cbn [answer chunks_used sources error].
  split; [exact Hlen|]. split; [|discriminate].
  unfold len. rewrite length_map. cbn [length]. repeat split. lia.
Qed.

End AnswerMore.

(* ================================================================= *)
(** ** Sample runs of the added properties *)

Section MoreSamples.

(** Two tokens with size 2 and overlap 5. *)
Lemma chunk_text_never_returns_witness :
  chunk_text 1000 (lit "a b") 2 5 = None.
Proof.
  apply (chunk_text_never_returns (lit "a b") 2 5).
  - unfold blank. discriminate.
  - lia.
Defined.

(** Seven tokens with size 5 and overlap 3: the chunks "a b c d e" and
    "c d e f g" share "c d e". *)
Lemma chunk_text_shared_tokens_witness :
  firstn 3 (split (lit "c d e f g")) = skipn 2 (split (lit "a b c d e")).
Proof.
  destruct (chunk_text_shared_tokens (lit "a b c d e f g") 5 3)
    as (chunks & Hrun & Hshare).
  - lia.
  - pose proof (Hrun 8%nat ltac:(simpl; lia)) as E.
    vm_compute in E. injection E as <-.
    apply (Hshare 0%nat). simpl. lia.
Defined.

(** The same chunks give back the seven tokens. *)
Lemma chunk_text_reassemble_witness :
  concat (map (fun c => firstn 2 (split c))
            [lit "a b c d e"; lit "c d e f g"; lit "e f g"; lit "g"])
  = split (lit "a b c d e f g").
Proof.
  destruct (chunk_text_reassemble (lit "a b c d e f g") 5 3)
    as (chunks & Hrun & Hcat).
  - lia.
  - pose proof (Hrun 8%nat ltac:(simpl; lia)) as E.
    vm_compute in E. injection E as <-.
    exact Hcat.
Defined.

(** A run that indexes the one chunk of "alpha beta gamma". *)
Lemma ingest_success_trace_witness :
  exists chunks : list str,
    chunk_text 4 (lit "alpha beta gamma") 500 50 = Some chunks /\
    chunks <> [].
Proof.
  destruct (ingest_success_trace
              (sample_world 500 50 [] good_answer (inr tt)) 4
              (lit "f1") (lit "https://files.example/doc.pdf") (lit "doc.pdf")
              []
              (snd (process_ingest 4
                      (sample_world 500 50 [] good_answer (inr tt))
                      (lit "f1") (lit "https://files.example/doc.pdf")
                      (lit "doc.pdf") []))
              {| ok := true; indexed_chunks := Some 1; reason := None |})
    as (path & text & chunks & vectors & batch & _ & Hx & Hc & Hne & _).
  - vm_compute. reflexivity.
  - reflexivity.
  - injection Hx as <-. exists chunks. split; [exact Hc|exact Hne].
Defined.

(** A PDF whose pages hold whitespace only. *)
Lemma ingest_blank_text_witness :
  process_ingest 0 (pdf_world blank_reader)
    (lit "f1") (lit "https://files.example/doc.pdf") (lit "doc.pdf") []
  = (Ret {| ok := false; indexed_chunks := None;
            reason := Some (lit "Empty text") |},
     [failed_update (lit "f1") (lit "Empty text extracted")]).
Proof.
  apply (ingest_blank_text (pdf_world blank_reader) 0
           (lit "f1") (lit "https://files.example/doc.pdf") (lit "doc.pdf")
           (lit "/tmp/tmpab12.pdf") [32%N; 32%N; 10%N; 10%N] []).
  - reflexivity.
  - reflexivity.
  - reflexivity.
Defined.

(** A run in which the removal of the temporary file raises. *)
Lemma ingest_failure_update_witness :
  exists before message,
    snd (process_ingest 4
           (sample_world 500 50 [] good_answer (inl (lit "disk error")))
           (lit "f1") (lit "https://files.example/doc.pdf") (lit "doc.pdf") [])
    = [] ++ before ++ [failed_update (lit "f1") message].
Proof.
  destruct (ingest_failure_update
              (sample_world 500 50 [] good_answer (inl (lit "disk error"))) 4
              (lit "f1") (lit "https://files.example/doc.pdf") (lit "doc.pdf")
              []
              (snd (process_ingest 4
                      (sample_world 500 50 [] good_answer
                         (inl (lit "disk error")))
                      (lit "f1") (lit "https://files.example/doc.pdf")
                      (lit "doc.pdf") []))
              {| ok := false; indexed_chunks := None;
                 reason := Some (lit "disk error") |})
    as (before & message & Htr & _).
  - vm_compute. reflexivity.
  - reflexivity.
  - exists before, message. exact Htr.
Defined.


(** An unreadable PDF: the temporary file stays. *)
Lemma ingest_failure_keeps_temp_file_witness :
  exists new,
    snd (process_ingest 4
           (pdf_world (fun _ => inl (lit "EOF marker not found")))
           (lit "f1") (lit "https://files.example/doc.pdf") (lit "doc.pdf") [])
    = [] ++ new /\
    forall path, ~ In (EvRemove path) new.
Proof.
  destruct (ingest_failure_keeps_temp_file
              (pdf_world (fun _ => inl (lit "EOF marker not found"))) 4
              (lit "f1") (lit "https://files.example/doc.pdf") (lit "doc.pdf")
              []
              (snd (process_ingest 4
                      (pdf_world (fun _ => inl (lit "EOF marker not found")))
                      (lit "f1") (lit "https://files.example/doc.pdf")
                      (lit "doc.pdf") []))
              {| ok := false; indexed_chunks := None;
                 reason := Some (lit "PDF extraction failed: EOF marker not found") |})
    as (new & Htr & Hrm).
  - vm_compute. reflexivity.
  - reflexivity.
  - exists new. split; [exact Htr|].
    intros path Hin. destruct (Hrm path Hin) as (e & He & _).
    discriminate He.
Defined.

(** The updates of a run that indexes one chunk. *)
Lemma ingest_updates_shape_witness :
  exists new,
    snd (process_ingest 4 (sample_world 500 50 [] good_answer (inr tt))
           (lit "f1") (lit "https://files.example/doc.pdf") (lit "doc.pdf") [])
    = [] ++ new /\
    forall payload, In (EvNotify payload) new ->
      np_errorMessage payload = None.
Proof.
  destruct (ingest_updates_shape
              (sample_world 500 50 [] good_answer (inr tt)) 4
              (lit "f1") (lit "https://files.example/doc.pdf") (lit "doc.pdf")
              [] _ _ eq_refl)
    as (new & Htr & Hall).
  exists new. split; [exact Htr|].
  intros payload Hin. apply (Hall payload Hin).
Defined.

(** Two pages, the first one without text. *)
Lemma extract_pdf_text_tokens_witness :
  exists text,
    PdfUtils.extract_pdf_text sample_reader (lit "/tmp/tmpab12.pdf")
    = inr text /\
    split text = [lit "alpha"; lit "beta"].
Proof.
  destruct (extract_pdf_text_tokens sample_reader (lit "/tmp/tmpab12.pdf")
              [[]; lit "alpha beta"] eq_refl)
    as (text & Hrun & _ & Htok).
  exists text. split; [exact Hrun|exact Htok].
Defined.

(** Four matches above the threshold: four sources, [chunks_used] 4. *)
Lemma process_answer_generated_witness :
  exists a tr_llm,
    process_answer
      (sample_world 500 50 four_matches_all_relevant good_answer (inr tt))
      (lit "q") 4 []
    = (Ret {| answer := a;
              sources := map (match_source
                                (sample_world 500 50 four_matches_all_relevant
                                   good_answer (inr tt)))
                           four_matches_all_relevant;
              chunks_used := Some 4; error := None |},
       [] ++ tr_llm).
Proof.
  destruct (process_answer_generated
              (sample_world 500 50 four_matches_all_relevant good_answer (inr tt))
              (lit "q") 4 [1%Q; 0%Q] four_matches_all_relevant []
              eq_refl eq_refl eq_refl)
    as (a & tr_llm & Hrun & _).
  - discriminate.
  - exists a, tr_llm. exact Hrun.
Defined.

(** A query that the output cannot encode: the print raises inside the
    [try] block, before the embedding and the search, and the payload is
    the error payload without a source, although the index holds four
    matches above the threshold. *)
Example process_answer_unprintable_query :
  retrieved utf8_world [55296%N] 4 = [] /\
  process_answer utf8_world [55296%N] 4 []
  = (Ret {| answer :=
              lit "An error occurred while processing your question: surrogates not allowed";
            sources := []; chunks_used := None;
            error := Some (lit "surrogates not allowed") |}, []).
Proof. split; reflexivity. Qed.

End MoreSamples.
